(** * Hybrid cultural classifier: rule cascade and fallback merge

    A shallow embedding of the decision logic of

    - [run_RBC_validation.py]: [load_golden_rules], [rule_based_classifier]
      and the body of [main] (the batch rule runner);
    - [apply_fallback_validation.py] / [apply_fallback_test.py]:
      [load_raw_text], [merge_predictions_with_text], [apply_ml_fallback]
      and [main];
    - [scripts/wikidata_enrichment.py] with [scripts/constants.py]:
      [fetch_wikidata_entity], [extract_cultural_properties] and
      [enrich_qids];
    - the bar data of the distribution plots in [analyze_test_results.py]
      and [analyze_validation_results.py].

    Conventions of the embedding.

    - Python [str] values are [string]s (sequences of bytes); the case
      functions [str.lower] and [str.title], the white-space test of
      [str.strip] and the digit class of the regular expression are
      modelled on ASCII, other bytes are left untouched.  They are the
      Python functions on ASCII strings; statements whose point is what
      these functions do to a text are made for ASCII texts ([is_ascii]).
    - The columns of a table hold strings or missing values.  The files
      passed from one script to the next are modelled as the tables that
      [pd.read_csv] delivers, not as the text that [to_csv] wrote: nothing
      is said here about what a cell becomes when it is written and read
      again.
    - A pandas cell that may be missing (NaN) is an [option]; [fillna] is
      [default].
    - A [dict] is a [gmap]; [d.get(k)] is [d !! k].
    - Code that can raise returns an [outcome]. *)

From Stdlib Require Import Ascii String.
From stdpp Require Import base option list strings sorting gmap fin_maps.

Local Open Scope string_scope.

(** ** Strings *)

Module PyStr.

Definition is_upper (c : ascii) : bool :=
  let n := nat_of_ascii c in (65 <=? n)%nat && (n <=? 90)%nat.

Definition is_lower (c : ascii) : bool :=
  let n := nat_of_ascii c in (97 <=? n)%nat && (n <=? 122)%nat.

(** A cased character, in the sense of [str.title]. *)
Definition is_cased (c : ascii) : bool := is_upper c || is_lower c.

Definition lower_char (c : ascii) : ascii :=
  if is_upper c then ascii_of_nat (nat_of_ascii c + 32) else c.

Definition upper_char (c : ascii) : ascii :=
  if is_lower c then ascii_of_nat (nat_of_ascii c - 32) else c.

(** [s.lower()] *)
Fixpoint lower (s : string) : string :=
  match s with
  | EmptyString => EmptyString
  | String c s' => String (lower_char c) (lower s')
  end.

(** [s.title()]: a character is upper-cased when the character before it
    is not cased, and lower-cased when it is. *)
Fixpoint title_from (previous_is_cased : bool) (s : string) : string :=
  match s with
  | EmptyString => EmptyString
  | String c s' =>
      String (if previous_is_cased then lower_char c else upper_char c)
             (title_from (is_cased c) s')
  end.

Definition title (s : string) : string := title_from false s.

(** The ASCII characters for which [str.isspace] holds. *)
Definition is_space (c : ascii) : bool :=
  let n := nat_of_ascii c in
  ((9 <=? n)%nat && (n <=? 13)%nat)
  || ((28 <=? n)%nat && (n <=? 32)%nat).

Fixpoint lstrip (s : string) : string :=
  match s with
  | EmptyString => EmptyString
  | String c s' => if is_space c then lstrip s' else s
  end.

(** [rstrip] drops the trailing white space: a character is kept when a
    character that is not white space follows it, or when it is one. *)
Fixpoint rstrip (s : string) : string :=
  match s with
  | EmptyString => EmptyString
  | String c s' =>
      match rstrip s' with
      | EmptyString => if is_space c then EmptyString else String c EmptyString
      | r => String c r
      end
  end.

(** [s.strip()] *)
Definition strip (s : string) : string := rstrip (lstrip s).

(** The truth value of a string: empty is false. *)
Definition nonempty (s : string) : bool :=
  match s with EmptyString => false | String _ _ => true end.

End PyStr.

(** ** Provenance tags

    The values the scripts write into the [source] column. *)

Definition RULE : string := "QID".
Definition UNRESOLVED : string := "Agnostic".

Definition AGNOSTIC : string := "Cultural Agnostic".

(** ** Reference tables *)

(** [Series.to_dict()] of the [label] column indexed by [qid]: a later row
    with the same key replaces an earlier one.  The keys are the cells of
    the [qid] column as read.  The labels are strings: a table file with an
    empty label cell, which [pd.read_csv] reads as a missing value, is not
    modelled. *)
Definition to_dict (rows : list (string * string)) : gmap string string :=
  foldl (fun m kv => <[kv.1 := kv.2]> m) ∅ rows.

(** [load_golden_rules]: each argument is the list of [(qid, label)] rows of
    one file. *)
Definition load_golden_rules
    (instance_rows culture_rows heritage_rows : list (string * string))
  : gmap string string * gmap string string * gmap string string :=
  let instance_map := to_dict instance_rows in
  let culture_map := to_dict culture_rows in
  let heritage_map := to_dict heritage_rows in
  (instance_map, culture_map, heritage_map).

(** ** Rule cascade *)

(** [row.get(field, [])] on the relationship columns of a row. *)
Definition row_get (row : gmap string (list string)) (field : string)
  : list string :=
  default [] (row !! field).

(** One of the three loops of [rule_based_classifier]:
<<
    for qid in qids:
        label = table.get(qid.lower())
        if label:
            return label, 'QID'
>>
    [Some label] is the early return, [None] is falling out of the loop. *)
Fixpoint lookup_loop (table : gmap string string) (qids : list string)
  : option string :=
  match qids with
  | [] => None
  | qid :: rest =>
      match table !! PyStr.lower qid with
      | Some label =>
          if PyStr.nonempty label then Some label else lookup_loop table rest
      | None => lookup_loop table rest
      end
  end.

Definition rule_based_classifier
    (row : gmap string (list string))
    (instance_map culture_map heritage_map : gmap string string)
  : string * string :=
  match lookup_loop heritage_map (row_get row "heritage_status") with
  | Some label => (label, "QID")
  | None =>
      match lookup_loop culture_map (row_get row "part_of_culture") with
      | Some label => (label, "QID")
      | None =>
          match lookup_loop instance_map (row_get row "instance_of") with
          | Some label => (label, "QID")
          | None => ("Cultural Agnostic", "Agnostic")
          end
      end
  end.

(** ** Outcomes of code that can raise *)

Inductive exn : Type :=
| LiteralError      (* [ValueError] or [SyntaxError] of [ast.literal_eval] *)
| KeyError          (* a column is missing *)
| FileNotFoundError (* [pd.read_csv] or [joblib.load] on a missing file *)
| ParserError       (* [parser.error]: the model file does not exist *)
| PredictError      (* raised by [model.predict] *)
| LengthError.      (* [pd.Series(values, index)] with lengths that differ *)

(** [Done a]: the code returns [a].  [Raised e]: it raises.  [Beyond]: the
    input is outside the fragment of the libraries that is modelled here;
    nothing is said about what the code does. *)
Inductive outcome (A : Type) : Type :=
| Done (a : A)
| Raised (e : exn)
| Beyond.

Arguments Done {A} a.
Arguments Raised {A} e.
Arguments Beyond {A}.

Definition bind {A B : Type} (m : outcome A) (k : A -> outcome B) : outcome B :=
  match m with
  | Done a => k a
  | Raised e => Raised e
  | Beyond => Beyond
  end.

Notation "'let*' x ':=' m 'in' k" := (bind m (fun x => k))
  (at level 10, x pattern, m at level 100, k at level 200).

(** [Series.apply(f)] for an [f] that can raise: row by row, in order. *)
Fixpoint apply_each {A B : Type} (f : A -> outcome B) (l : list A)
  : outcome (list B) :=
  match l with
  | [] => Done []
  | x :: l' =>
      let* y := f x in
      let* ys := apply_each f l' in
      Done (y :: ys)
  end.

(** ** Relationship cells *)

(** A cell of a relationship column as [pd.read_csv] delivers it: a string,
    or a missing value (a float NaN, for which [isinstance(x, str)] is
    false). *)
Inductive cell : Type :=
| CStr (s : string)
| CNaN.

Module Literal.

Definition quote1 : ascii := ascii_of_nat 39.
Definition quote2 : ascii := ascii_of_nat 34.
Definition backslash : ascii := ascii_of_nat 92.
Definition lbracket : ascii := ascii_of_nat 91.
Definition rbracket : ascii := ascii_of_nat 93.
Definition comma : ascii := ascii_of_nat 44.

Definition is_blank (c : ascii) : bool :=
  Ascii.eqb c (ascii_of_nat 32) || Ascii.eqb c (ascii_of_nat 9).

Definition is_quote (c : ascii) : bool :=
  Ascii.eqb c quote1 || Ascii.eqb c quote2.

Definition is_control (c : ascii) : bool := (nat_of_ascii c <? 32)%nat.

(** Where the scanner is in a list display. *)
Inductive state : Type :=
| Start                                   (* nothing read yet *)
| Item (acc : list string)                (* after the bracket or a comma *)
| Str (q : ascii) (cur : string) (acc : list string) (* in a string literal *)
| Sep (acc : list string)                 (* after a string literal *)
| Closed (acc : list string).             (* after the closing bracket *)

(** The fragment of [ast.literal_eval] on the list displays that
    [DataFrame.to_csv] writes for a list of strings: a bracketed,
    comma-separated sequence of string literals in single or double
    quotes, without escapes, with blanks between the tokens and after the
    closing bracket.

    - [Done ids]: the text is such a display and evaluates to [ids].
    - [Raised LiteralError]: the text ends before the display does (it is
      empty, or a bracket or a quote is left open): [SyntaxError].
    - [Beyond]: any other text; it may be another literal or raise. *)
Fixpoint scan (st : state) (s : string) : outcome (list string) :=
  match s with
  | EmptyString =>
      match st with
      | Closed acc => Done (reverse acc)
      | _ => Raised LiteralError
      end
  | String c s' =>
      match st with
      | Start =>
          if Ascii.eqb c lbracket then scan (Item []) s' else Beyond
      | Item acc =>
          if is_blank c then scan (Item acc) s'
          else if is_quote c then scan (Str c EmptyString acc) s'
          else if Ascii.eqb c rbracket then scan (Closed acc) s'
          else Beyond
      | Str q cur acc =>
          if Ascii.eqb c q then scan (Sep (cur :: acc)) s'
          else if Ascii.eqb c backslash || is_control c then Beyond
          else scan (Str q (cur +:+ String c EmptyString) acc) s'
      | Sep acc =>
          if is_blank c then scan (Sep acc) s'
          else if Ascii.eqb c comma then scan (Item acc) s'
          else if Ascii.eqb c rbracket then scan (Closed acc) s'
          else Beyond
      | Closed acc =>
          if is_blank c then scan (Closed acc) s' else Beyond
      end
  end.

Definition literal_eval (s : string) : outcome (list string) := scan Start s.

End Literal.

(** The function applied to every cell of a relationship column:
<<
    lambda x: ast.literal_eval(x) if isinstance(x, str) else []
>> *)
Definition eval_cell (x : cell) : outcome (list string) :=
  match x with
  | CStr s => Literal.literal_eval s
  | CNaN => Done []
  end.

(** ** Batch rule runner: the body of [main] in [run_RBC_validation.py] *)

(** A row of the enriched input table. *)
Record entity_row : Type := EntityRow {
  e_qid : option string;
  e_label : option string;
  e_cells : gmap string cell
}.

(** A row of a prediction table: the columns [qid], [label], [prediction]
    and [source]. *)
Record pred_row : Type := PredRow {
  qid : option string;
  label : option string;
  prediction : option string;
  source : option string
}.

Definition list_fields : list string :=
  [ "country_of_origin"; "country"; "located_in";
    "part_of_culture"; "instance_of"; "heritage_status" ].

(** The cell of a row in the column [field], evaluated; the column has to be
    there. *)
Definition eval_field (field : string) (r : entity_row) : outcome (list string) :=
  match e_cells r !! field with
  | Some x => eval_cell x
  | None => Raised KeyError
  end.

(** [df[field].apply(...)]: the cells of one column, top to bottom. *)
Definition eval_column (field : string) (df : list entity_row)
  : outcome (list (list string)) :=
  apply_each (eval_field field) df.

(** The loop [for field in list_fields: df[field] = df[field].apply(...)],
    column after column; [rows] holds the columns evaluated so far. *)
Fixpoint eval_columns (fields : list string) (df : list entity_row)
    (rows : list (gmap string (list string)))
  : outcome (list (gmap string (list string))) :=
  match fields with
  | [] => Done rows
  | field :: fields' =>
      let* col := eval_column field df in
      eval_columns fields' df (zip_with (fun m ids => <[field := ids]> m) rows col)
  end.

(** A row of the output: the input row's [qid] and [label], the title-cased
    prediction and the source. *)
Definition to_pred (r : entity_row) (result : string * string) : pred_row :=
  {| qid := e_qid r; label := e_label r;
     prediction := Some (PyStr.title result.1);
     source := Some result.2 |}.

(** Evaluate the list columns, classify every row, title-case the
    prediction and keep the columns [qid], [label], [prediction],
    [source]. *)
Definition classify_rows (df : list entity_row)
    (instance_map culture_map heritage_map : gmap string string)
  : outcome (list pred_row) :=
  let* rows := eval_columns list_fields df (replicate (length df) ∅) in
  let results :=
    map (fun row => rule_based_classifier row instance_map culture_map heritage_map)
        rows in
  Done (zip_with to_pred df results).

(** The rule runner.  [DataFrame.apply] on a frame without rows is not
    modelled. *)
Definition run_rules (df : list entity_row)
    (instance_map culture_map heritage_map : gmap string string)
  : outcome (list pred_row) :=
  match df with
  | [] => Beyond
  | _ :: _ => classify_rows df instance_map culture_map heritage_map
  end.

(** ** Entity text: [load_raw_text] *)

(** A row of the raw dataset: the columns [item], [name], [description]. *)
Record raw_row : Type := RawRow {
  item : option string;
  name : option string;
  description : option string
}.

(** A row of the frame [load_raw_text] returns: [qid], [name],
    [description]. *)
Record text_row : Type := TextRow {
  t_qid : option string;
  t_name : option string;
  t_description : option string
}.

(** The digits [0] to [9]: the characters of an ASCII text that [\d]
    matches. *)
Definition is_digit (c : ascii) : bool :=
  let n := nat_of_ascii c in (48 <=? n)%nat && (n <=? 57)%nat.

Fixpoint digits (s : string) : string :=
  match s with
  | EmptyString => EmptyString
  | String c s' => if is_digit c then String c (digits s') else EmptyString
  end.

(** [str.extract(r'(Q\d+)')] on an ASCII item: the leftmost [Q] that a
    digit follows, with all the digits after it; nothing when there is
    none. *)
Fixpoint extract_qid (s : string) : option string :=
  match s with
  | EmptyString => None
  | String c s' =>
      if Ascii.eqb c (ascii_of_nat 81) then
        match digits s' with
        | EmptyString => extract_qid s'
        | ds => Some (String c ds)
        end
      else extract_qid s'
  end.

Definition load_raw_text (rows : list raw_row) : list text_row :=
  map (fun r => {| t_qid := item r ≫= extract_qid;
                   t_name := name r;
                   t_description := description r |})
      rows.

(** ** Fallback merge *)

(** A row of the merged frame. *)
Record hyb_row : Type := HybRow {
  m_qid : option string;
  m_label : option string;
  m_prediction : option string;
  m_source : option string;
  m_name : option string;
  m_description : option string;
  m_text : string
}.

(** Equality of join keys; a missing key joins with a missing key. *)
Definition same_key (a b : option string) : bool := bool_decide (a = b).

(** [preds.merge(raw, on='qid', how='left')]: the rows of [preds] in their
    order, each once for every row of [raw] with its key, and once with the
    text columns missing when there is none. *)
Definition left_merge (preds : list pred_row) (raw : list text_row)
  : list (pred_row * option text_row) :=
  flat_map
    (fun p =>
       match List.filter (fun t => same_key (qid p) (t_qid t)) raw with
       | [] => [(p, None)]
       | matches => map (fun t => (p, Some t)) matches
       end)
    preds.

Definition merge_predictions_with_text
    (preds : list pred_row) (raw : list text_row) : list hyb_row :=
  map (fun pt : pred_row * option text_row =>
         let (p, t) := pt in
         let name := t ≫= t_name in
         let description := t ≫= t_description in
         {| m_qid := qid p; m_label := label p;
            m_prediction := prediction p; m_source := source p;
            m_name := name; m_description := description;
            m_text := PyStr.strip (default "" name +:+ " " +:+ default "" description) |})
      (left_merge preds raw).

(** The fallback classifier: [model.predict] on a batch of texts.  [None]
    stands for an exception; an entry of the result that is [None] is a
    null label. *)
Definition classifier : Type := list string -> option (list (option string)).

(** What the scripts do that is visible from outside, apart from files. *)
Inductive event : Type :=
| Predicted (texts : list string)  (* a call of [model.predict] *)
| Warned (missing : nat)           (* the warning about missing predictions *)
| Saved (path : string).           (* the closing message of [main], which
                                      names the output path; its wording
                                      differs between the two scripts *)

(** One entry of [mask]. *)
Definition in_mask (r : hyb_row) : bool :=
  String.eqb (PyStr.lower (default "" (m_prediction r))) "cultural agnostic"
  && (0 <? String.length (m_text r))%nat.

(** A row after the two assignments through [df.loc[mask, ...]]: the
    title-cased entry of the fallback result as prediction, and the source
    [ML]. *)
Definition with_fallback (r : hyb_row) (p : option string) : hyb_row :=
  {| m_qid := m_qid r; m_label := m_label r;
     m_prediction := PyStr.title <$> p; m_source := Some "ML";
     m_name := m_name r; m_description := m_description r;
     m_text := m_text r |}.

(** The assignments over the frame: the masked rows take the entries of
    the fallback result in order. *)
Fixpoint overwrite (df : list hyb_row) (preds : list (option string))
  : list hyb_row :=
  match df with
  | [] => []
  | r :: df' =>
      if in_mask r then
        match preds with
        | p :: preds' => with_fallback r p :: overwrite df' preds'
        | [] => r :: overwrite df' []
        end
      else r :: overwrite df' preds
  end.

(** [df['source'].fillna('QID')] on one row. *)
Definition fill_source (r : hyb_row) : hyb_row :=
  {| m_qid := m_qid r; m_label := m_label r;
     m_prediction := m_prediction r;
     m_source := Some (default "QID" (m_source r));
     m_name := m_name r; m_description := m_description r;
     m_text := m_text r |}.

Definition is_na (r : hyb_row) : bool :=
  match m_prediction r with None => true | Some _ => false end.

(** The tail of [apply_ml_fallback], after the overwrite. *)
Definition finish (df : list hyb_row) : list event * list hyb_row :=
  let df := map fill_source df in
  let missing := length (List.filter is_na df) in
  (match missing with O => [] | S _ => [Warned missing] end, df).

(** [apply_ml_fallback]: the events in the order they happen, and the frame
    returned or the exception. *)
Definition apply_ml_fallback (df : list hyb_row) (model : classifier)
  : list event * outcome (list hyb_row) :=
  if existsb in_mask df then
    let texts := map m_text (List.filter in_mask df) in
    match model texts with
    | None => ([Predicted texts], Raised PredictError)
    | Some preds =>
        if (length preds =? length texts)%nat then
          let (printed, df') := finish (overwrite df preds) in
          (Predicted texts :: printed, Done df')
        else ([Predicted texts], Raised LengthError)
    end
  else
    let (printed, df') := finish df in (printed, Done df').

(** ** The scripts' [main]: files and messages *)

(** The table and model files the fallback scripts read and write.
    Directories and the error stream are not modelled: the [mkdir] of the
    output directory, with which [main] begins, and the usage message of
    [parser.error] leave no mark in a [world]. *)
Inductive file : Type :=
| PredsCsv (rows : list pred_row)       (* a rule-based prediction table *)
| RawCsv (rows : list raw_row)          (* a raw dataset *)
| ModelPkl (model : classifier)         (* a serialized fallback model *)
| HybridCsv (columns : list string) (rows : list (list (option string))).
                                        (* what [to_csv] wrote *)

Record world : Type := World {
  files : gmap string file;
  trace : list event
}.

Record args : Type := Args {
  input : string;
  raw : string;
  model : string;
  output : string
}.

(** Computations that read and change the [world] and can raise. *)
Definition io (A : Type) : Type := world -> outcome A * world.

Definition io_ret {A : Type} (a : A) : io A := fun w => (Done a, w).

Definition io_bind {A B : Type} (m : io A) (k : A -> io B) : io B :=
  fun w =>
    match m w with
    | (Done a, w') => k a w'
    | (Raised e, w') => (Raised e, w')
    | (Beyond, w') => (Beyond, w')
    end.

Notation "x <~ m ;; k" := (io_bind m (fun x => k))
  (at level 100, m at next level, right associativity).

Definition emit (events : list event) : io unit :=
  fun w => (Done tt, {| files := files w; trace := trace w ++ events |}).

Definition lift {A : Type} (o : outcome A) : io A := fun w => (o, w).

(** [pd.read_csv(path, dtype={'qid': str})] on a prediction table. *)
Definition read_preds (path : string) : io (list pred_row) :=
  fun w =>
    match files w !! path with
    | None => (Raised FileNotFoundError, w)
    | Some (PredsCsv rows) => (Done rows, w)
    | Some _ => (Beyond, w)
    end.

(** [pd.read_csv(path)] on a raw dataset. *)
Definition read_raw (path : string) : io (list raw_row) :=
  fun w =>
    match files w !! path with
    | None => (Raised FileNotFoundError, w)
    | Some (RawCsv rows) => (Done rows, w)
    | Some _ => (Beyond, w)
    end.

(** [if not args.model.exists(): parser.error(...)], then [joblib.load]. *)
Definition load_model (path : string) : io classifier :=
  fun w =>
    match files w !! path with
    | None => (Raised ParserError, w)
    | Some (ModelPkl model) => (Done model, w)
    | Some _ => (Beyond, w)
    end.

(** [df[columns].to_csv(path, index=False)] *)
Definition to_csv (path : string) (columns : list string)
    (rows : list (list (option string))) : io unit :=
  fun w =>
    (Done tt, {| files := <[path := HybridCsv columns rows]> (files w);
                 trace := trace w |}).

(** The body shared by the two [main]s, which differ in the columns they
    write. *)
Definition main_with (columns : list string)
    (select : hyb_row -> list (option string)) (a : args) : io unit :=
  preds <~ read_preds (input a) ;;
  rows <~ read_raw (raw a) ;;
  let raw := load_raw_text rows in
  let df := merge_predictions_with_text preds raw in
  model <~ load_model (model a) ;;
  let (events, result) := apply_ml_fallback df model in
  _ <~ emit events ;;
  df <~ lift result ;;
  _ <~ to_csv (output a) columns (map select df) ;;
  emit [Saved (output a)].

(** [main] of [apply_fallback_validation.py] *)
Definition main_validation : args -> io unit :=
  main_with ["qid"; "label"; "prediction"; "source"]
            (fun r => [m_qid r; m_label r; m_prediction r; m_source r]).

(** [main] of [apply_fallback_test.py] *)
Definition main_test : args -> io unit :=
  main_with ["qid"; "prediction"; "source"]
            (fun r => [m_qid r; m_prediction r; m_source r]).

(** * Notions used in the statements *)

(** The test of the loops: the table has a non-empty label for the
    lower-cased identifier. *)
Definition hit (table : gmap string string) (qid label : string) : Prop :=
  table !! PyStr.lower qid = Some label ∧ label ≠ "".

Definition no_hit (table : gmap string string) (qids : list string) : Prop :=
  ∀ qid label, qid ∈ qids → ¬ hit table qid label.

(** [label] belongs to the first identifier of [qids] that hits. *)
Definition first_hit (table : gmap string string) (qids : list string)
  (label : string) : Prop :=
  ∃ pre qid post,
    qids = (pre ++ qid :: post)%list ∧ no_hit table pre ∧ hit table qid label.

(** The table without its entries that carry the empty label. *)
Definition drop_empty (table : gmap string string) : gmap string string :=
  omap (fun label => if PyStr.nonempty label then Some label else None) table.

(** Every cell of the listed columns is there and within the modelled
    fragment of [ast.literal_eval]. *)
Definition cells_modelled (df : list entity_row) (fields : list string) : Prop :=
  ∀ r field, r ∈ df → field ∈ fields →
    ∃ x, e_cells r !! field = Some x ∧ eval_cell x ≠ Beyond.

(** Some cell of the listed columns is a string that [ast.literal_eval]
    rejects. *)
Definition bad_cell (df : list entity_row) (fields : list string) : Prop :=
  ∃ r field s, r ∈ df ∧ field ∈ fields
    ∧ e_cells r !! field = Some (CStr s)
    ∧ Literal.literal_eval s = Raised LiteralError.

(** A missing cell replaced by the text of the empty list. *)
Definition nan_as_empty (r : entity_row) : entity_row :=
  {| e_qid := e_qid r; e_label := e_label r;
     e_cells := (fun x => match x with CNaN => CStr "[]" | CStr s => CStr s end)
                  <$> e_cells r |}.

(** The check of [cells_modelled], computed. *)
Definition cells_modelledb (df : list entity_row) (fields : list string) : bool :=
  forallb (fun r =>
    forallb (fun field =>
      match e_cells r !! field with
      | Some x => match eval_cell x with Beyond => false | _ => true end
      | None => false
      end) fields) df.

(** The check of [bad_cell], computed. *)
Definition bad_cellb (df : list entity_row) (fields : list string) : bool :=
  existsb (fun r =>
    existsb (fun field =>
      match e_cells r !! field with
      | Some (CStr s) =>
          match Literal.literal_eval s with
          | Raised LiteralError => true
          | _ => false
          end
      | _ => false
      end) fields) df.

(** An entity row with the given texts in the three consulted columns and
    the empty list in the others. *)
Definition entity (id : string) (heritage culture instance : cell) : entity_row :=
  {| e_qid := Some id; e_label := None;
     e_cells :=
       {[ "country_of_origin" := CStr "[]"; "country" := CStr "[]";
          "located_in" := CStr "[]"; "part_of_culture" := culture;
          "instance_of" := instance; "heritage_status" := heritage ]} |}.

(** The rows the fallback is for, in the words of the design: the
    prediction is ["Cultural Agnostic"] up to case, and the text is not
    empty. *)
Definition eligible (r : hyb_row) : Prop :=
  ∃ p, m_prediction r = Some p
       ∧ PyStr.lower p = PyStr.lower AGNOSTIC
       ∧ m_text r ≠ "".

(** The texts handed to the classifier. *)
Definition fallback_texts (df : list hyb_row) : list string :=
  map m_text (List.filter in_mask df).

(** The number of masked rows above row [i]: the place of row [i] in the
    batch. *)
Definition rank (df : list hyb_row) (i : nat) : nat :=
  length (List.filter in_mask (take i df)).

(** The name and the description, joined by a space and trimmed. *)
Definition joined_text (r : hyb_row) : string :=
  PyStr.strip (default "" (m_name r) +:+ " " +:+ default "" (m_description r)).

(** The message printed at the end of [apply_ml_fallback] for a frame. *)
Definition warning (df : list hyb_row) : list event :=
  match length (List.filter is_na df) with
  | O => []
  | S n => [Warned (S n)]
  end.

(** No prediction's key occurs twice among the text rows. *)
Definition text_unique (preds : list pred_row) (raw : list text_row) : Prop :=
  ∀ p, p ∈ preds →
    (length (List.filter (fun t => same_key (qid p) (t_qid t)) raw) ≤ 1)%nat.

(** ** A small dataset

    Three entities: the first has a heritage status the heritage table
    knows, the other two have no relationship the tables know; the third has
    no text. *)
Definition sample_ents : list entity_row :=
  [ entity "Q1" (CStr "['q1']") CNaN CNaN;
    entity "Q2" CNaN (CStr "['q8']") CNaN;
    entity "Q3" (CStr "[]") (CStr "[]") (CStr "[]") ].

Definition sample_heritage : gmap string string := {[ "q1" := "tangible" ]}.

Definition sample_raw : list raw_row :=
  [ {| item := Some "http://www.wikidata.org/entity/Q1";
       name := Some "Taj Mahal"; description := Some "mausoleum" |};
    {| item := Some "http://www.wikidata.org/entity/Q2";
       name := Some "Diwali"; description := Some "festival" |};
    {| item := Some "http://www.wikidata.org/entity/Q3";
       name := None; description := None |} ].

(** A classifier that answers [intangible] for every text, and one that
    raises. *)
Definition sample_model : classifier :=
  fun texts => Some (map (fun _ => Some "intangible") texts).

Definition failing_model : classifier := fun _ => None.

(** The table the rule runner gives for the sample. *)
Definition sample_preds : list pred_row :=
  [ {| qid := Some "Q1"; label := None;
       prediction := Some "Tangible"; source := Some "QID" |};
    {| qid := Some "Q2"; label := None;
       prediction := Some "Cultural Agnostic"; source := Some "Agnostic" |};
    {| qid := Some "Q3"; label := None;
       prediction := Some "Cultural Agnostic"; source := Some "Agnostic" |} ].

(** The merged frame of the sample, and the frame after the fallback. *)
Definition sample_df : list hyb_row :=
  [ {| m_qid := Some "Q1"; m_label := None;
       m_prediction := Some "Tangible"; m_source := Some "QID";
       m_name := Some "Taj Mahal"; m_description := Some "mausoleum";
       m_text := "Taj Mahal mausoleum" |};
    {| m_qid := Some "Q2"; m_label := None;
       m_prediction := Some "Cultural Agnostic"; m_source := Some "Agnostic";
       m_name := Some "Diwali"; m_description := Some "festival";
       m_text := "Diwali festival" |};
    {| m_qid := Some "Q3"; m_label := None;
       m_prediction := Some "Cultural Agnostic"; m_source := Some "Agnostic";
       m_name := None; m_description := None; m_text := "" |} ].

Definition sample_final : list hyb_row :=
  [ {| m_qid := Some "Q1"; m_label := None;
       m_prediction := Some "Tangible"; m_source := Some "QID";
       m_name := Some "Taj Mahal"; m_description := Some "mausoleum";
       m_text := "Taj Mahal mausoleum" |};
    {| m_qid := Some "Q2"; m_label := None;
       m_prediction := Some "Intangible"; m_source := Some "ML";
       m_name := Some "Diwali"; m_description := Some "festival";
       m_text := "Diwali festival" |};
    {| m_qid := Some "Q3"; m_label := None;
       m_prediction := Some "Cultural Agnostic"; m_source := Some "Agnostic";
       m_name := None; m_description := None; m_text := "" |} ].

(** The files of a validation run on the sample, with a given model. *)
Definition sample_args : args :=
  {| input := "results/validation_rules.csv";
     raw := "data/validation_raw.csv";
     model := "models/tfidf_fallback_model.pkl";
     output := "results/validation_fallback.csv" |}.

Definition sample_world (clf : classifier) : world :=
  {| files := {[ "results/validation_rules.csv" := PredsCsv sample_preds;
                 "data/validation_raw.csv" := RawCsv sample_raw;
                 "models/tfidf_fallback_model.pkl" := ModelPkl clf ]};
     trace := [] |}.

(** A frame with one row that has a prediction of the rules and no
    source. *)
Definition sourceless_df : list hyb_row :=
  [ {| m_qid := Some "Q1"; m_label := None;
       m_prediction := Some "Tangible"; m_source := None;
       m_name := None; m_description := None; m_text := "" |} ].

(** ** Further notions *)

(** The three fields of a row that the cascade reads, a missing one as the
    empty list. *)
Definition consulted (row : gmap string (list string)) : gmap string (list string) :=
  {[ "heritage_status" := row_get row "heritage_status";
     "part_of_culture" := row_get row "part_of_culture";
     "instance_of" := row_get row "instance_of" ]}.

(** The lists of a row's three consulted columns, when they evaluate. *)
Definition consulted_lists (r : entity_row) (heritage culture instance : list string)
  : Prop :=
  eval_field "heritage_status" r = Done heritage
  ∧ eval_field "part_of_culture" r = Done culture
  ∧ eval_field "instance_of" r = Done instance.


(** The string has white space only. *)
Fixpoint all_space (s : string) : bool :=
  match s with
  | EmptyString => true
  | String c s' => PyStr.is_space c && all_space s'
  end.

(** The string has digits only. *)
Fixpoint all_digits (s : string) : bool :=
  match s with
  | EmptyString => true
  | String c s' => is_digit c && all_digits s'
  end.

(** The columns of a merged row that come from the prediction table. *)
Definition pred_of (r : hyb_row) : pred_row :=
  {| qid := m_qid r; label := m_label r;
     prediction := m_prediction r; source := m_source r |}.

(** The number of text rows with the key of a prediction row. *)
Definition text_matches (p : pred_row) (raw : list text_row) : nat :=
  length (List.filter (fun t => same_key (qid p) (t_qid t)) raw).

(** A prediction row merged with no text row. *)
Definition without_text (p : pred_row) : hyb_row :=
  {| m_qid := qid p; m_label := label p;
     m_prediction := prediction p; m_source := source p;
     m_name := None; m_description := None; m_text := "" |}.

(** A row of the validation table without its [label] cell. *)
Definition drop_label (row : list (option string)) : list (option string) :=
  match row with
  | q :: _ :: rest => q :: rest
  | _ => row
  end.

(** ** Notions and data of the statements on frames *)

(** The string holds ASCII characters only. *)
Fixpoint is_ascii (s : string) : bool :=
  match s with
  | EmptyString => true
  | String c s' => (nat_of_ascii c <? 128)%nat && is_ascii s'
  end.

(** The rows that the left join makes of the prediction table: each row,
    in order, once for every text row with its key and once when there is
    none. *)
Definition joined_rows (preds : list pred_row) (raw : list text_row)
  : list pred_row :=
  flat_map (fun p => replicate (Nat.max 1 (text_matches p raw)) p) preds.





(** The sample's raw dataset with a second row for the item [Q2], and the
    files of a validation run on it. *)
Definition doubled_raw : list raw_row :=
  (sample_raw
   ++ [ {| item := Some "http://www.wikidata.org/entity/Q2";
           name := Some "Deepavali"; description := Some "festival of lights" |} ])%list.

Definition doubled_world : world :=
  {| files := {[ "results/validation_rules.csv" := PredsCsv sample_preds;
                 "data/validation_raw.csv" := RawCsv doubled_raw;
                 "models/tfidf_fallback_model.pkl" := ModelPkl sample_model ]};
     trace := [] |}.

(** * Enrichment: [scripts/constants.py], [scripts/wikidata_enrichment.py] *)

(** [WIKIDATA_PROPERTIES], in the order of the dict. *)
Definition WIKIDATA_PROPERTIES : list (string * string) :=
  [ ("country_of_origin", "P495"); ("country", "P17"); ("located_in", "P131");
    ("part_of_culture", "P2596"); ("instance_of", "P31");
    ("heritage_status", "P1435") ].

(** A value decoded from JSON.  [JObj] holds the items of the dict in
    order, with distinct keys; a number is given by an integer with the
    same truth value. *)
Inductive json : Type :=
| JNull
| JBool (b : bool)
| JNum (n : Z)
| JStr (s : string)
| JArr (items : list json)
| JObj (members : list (string * json)).

(** The exceptions of the enrichment code that it does not catch. *)
Inductive pyerr : Type :=
| AttributeError   (* [.get] or [.lower] on a value that has none *)
| TypeError.       (* iteration over a value that is not iterable *)

Inductive attempt (A : Type) : Type :=
| Ok (a : A)
| Fail (e : pyerr).

Arguments Ok {A} a.
Arguments Fail {A} e.

Definition and_then {A B : Type} (m : attempt A) (k : A -> attempt B) : attempt B :=
  match m with
  | Ok a => k a
  | Fail e => Fail e
  end.

Notation "'let?' x ':=' m 'in' k" := (and_then m (fun x => k))
  (at level 10, x pattern, m at level 100, k at level 200).

(** The value of a key among the items of a dict. *)
Fixpoint obj_get (members : list (string * json)) (key : string) : option json :=
  match members with
  | [] => None
  | (k, v) :: rest => if String.eqb k key then Some v else obj_get rest key
  end.

(** The truth value of a value, as in [if entity]. *)
Definition truthy (j : json) : bool :=
  match j with
  | JNull => false
  | JBool b => b
  | JNum n => negb (n =? 0)%Z
  | JStr s => PyStr.nonempty s
  | JArr items => match items with [] => false | _ :: _ => true end
  | JObj members => match members with [] => false | _ :: _ => true end
  end.

(** [j.get(key, default)]: only a dict has [get]. *)
Definition get_default (j : json) (key : string) (dflt : json) : attempt json :=
  match j with
  | JObj members => Ok (default dflt (obj_get members key))
  | _ => Fail AttributeError
  end.

(** The values a [for] loop over [j] goes through: the items of a list,
    the keys of a dict, the characters of a string. *)
Definition iterate (j : json) : attempt (list json) :=
  match j with
  | JArr items => Ok items
  | JObj members => Ok (map (fun kv => JStr kv.1) members)
  | JStr s => Ok (map (fun c => JStr (String c EmptyString)) (list_ascii_of_string s))
  | JNull | JBool _ | JNum _ => Fail TypeError
  end.

(** The body of the inner loop for one entry: the lower-cased [id] of the
    entry's value when the value is a dict with an [id], nothing
    otherwise. *)
Definition entry_id (entry : json) : attempt (option string) :=
  let? mainsnak := get_default entry "mainsnak" (JObj []) in
  let? datavalue := get_default mainsnak "datavalue" (JObj []) in
  let? value := get_default datavalue "value" (JObj []) in
  match value with
  | JObj members =>
      match obj_get members "id" with
      | Some (JStr id) => Ok (Some (PyStr.lower id))
      | Some _ => Fail AttributeError
      | None => Ok None
      end
  | _ => Ok None
  end.

(** The inner loop: [values] for the entries of one property. *)
Fixpoint collect_ids (entries : list json) : attempt (list string) :=
  match entries with
  | [] => Ok []
  | entry :: rest =>
      let? id := entry_id entry in
      let? ids := collect_ids rest in
      Ok (match id with Some id => id :: ids | None => ids end)
  end.

Definition property_values (claims : json) (pid : string) : attempt (list string) :=
  let? entries := get_default claims pid (JArr []) in
  let? entries := iterate entries in
  collect_ids entries.

(** A record of the enrichment: the [qid] and the list of each property. *)
Record enriched : Type := Enriched {
  en_qid : string;
  en_values : gmap string (list string)
}.

(** The outer loop over the properties. *)
Fixpoint fill_properties (claims : json) (properties : list (string * string))
    (result : gmap string (list string)) : attempt (gmap string (list string)) :=
  match properties with
  | [] => Ok result
  | (prop_name, pid) :: rest =>
      let? values := property_values claims pid in
      fill_properties claims rest (<[prop_name := values]> result)
  end.

(** [extract_cultural_properties]; [None] is the entity of a failed
    retrieval. *)
Definition extract_cultural_properties (entity : option json) (qid : string)
  : attempt enriched :=
  let? claims :=
    match entity with
    | Some e => if truthy e then get_default e "claims" (JObj []) else Ok (JObj [])
    | None => Ok (JObj [])
    end in
  let? values := fill_properties claims WIKIDATA_PROPERTIES ∅ in
  Ok {| en_qid := qid; en_values := values |}.

Definition entity_url (qid : string) : string :=
  "https://www.wikidata.org/wiki/Special:EntityData/" +:+ qid +:+ ".json".

(** [fetch_wikidata_entity].  The network is a function [http] from a URL
    to the decoded body, or to [None] when the request raises a
    [RequestException], which the function catches. *)
Definition fetch_wikidata_entity (http : string -> option json) (qid : string)
  : attempt (option json) :=
  match http (entity_url qid) with
  | None => Ok None
  | Some data =>
      let? entities := get_default data "entities" (JObj []) in
      match entities with
      | JObj members => Ok (obj_get members qid)
      | _ => Fail AttributeError
      end
  end.

(** [s.split("/")[-1]]: what follows the last slash; [current] is the
    segment read so far. *)
Fixpoint segment_after (current s : string) : string :=
  match s with
  | EmptyString => current
  | String c s' =>
      if Ascii.eqb c (ascii_of_nat 47) then segment_after EmptyString s'
      else segment_after (current +:+ String c EmptyString) s'
  end.

Definition last_segment (s : string) : string := segment_after EmptyString s.

(** The loop of [enrich_qids] over the identifiers. *)
Fixpoint enrich_each (http : string -> option json) (qids : list string)
  : attempt (list enriched) :=
  match qids with
  | [] => Ok []
  | qid :: rest =>
      let? entity := fetch_wikidata_entity http qid in
      let? record := extract_cultural_properties entity qid in
      let? records := enrich_each http rest in
      Ok (record :: records)
  end.

(** [enrich_qids]: the records it writes, for the cells of the [item]
    column. *)
Definition enrich_qids (http : string -> option json) (items : list string)
  : attempt (list enriched) :=
  enrich_each http (map last_segment items).

(** ** Lists as text

    [DataFrame.to_csv] writes a list cell as [str] of the list. *)

(** A printable ASCII character other than the single quote and the
    backslash: [repr] of a string of such characters is the string between
    single quotes. *)
Definition plain_char (c : ascii) : bool :=
  let n := nat_of_ascii c in
  (32 <=? n)%nat && (n <=? 126)%nat && negb (n =? 39)%nat && negb (n =? 92)%nat.

Fixpoint plain (s : string) : bool :=
  match s with
  | EmptyString => true
  | String c s' => plain_char c && plain s'
  end.

(** [repr(s)] for a plain string; other strings are not modelled. *)
Definition str_repr (s : string) : option string :=
  if plain s then Some ("'" +:+ s +:+ "'") else None.

Fixpoint join_reprs (ids : list string) : option string :=
  match ids with
  | [] => Some EmptyString
  | id :: rest =>
      match rest with
      | [] => str_repr id
      | _ :: _ =>
          r ← str_repr id; rs ← join_reprs rest; Some (r +:+ ", " +:+ rs)
      end
  end.

(** [str(ids)] for a list of plain strings. *)
Definition list_str (ids : list string) : option string :=
  body ← join_reprs ids; Some ("[" +:+ body +:+ "]").


(** All identifiers of all lists are in lower case. *)
Definition lower_case_values (values : gmap string (list string)) : Prop :=
  ∀ field ids id, values !! field = Some ids → id ∈ ids → PyStr.lower id = id.

(** The record of an entity without claims: the empty list in each of the
    six columns. *)
Definition empty_record (qid : string) : enriched :=
  {| en_qid := qid;
     en_values := list_to_map (map (fun field => (field, [])) list_fields) |}.

(** A small entity document, with one claim for [P31] and one for
    [P1435]. *)
Definition sample_entity : json :=
  JObj [("id", JStr "Q9");
        ("claims",
         JObj [("P31",
                JArr [JObj [("mainsnak",
                             JObj [("datavalue",
                                    JObj [("value", JObj [("id", JStr "Q5")])])])]]);
               ("P1435",
                JArr [JObj [("mainsnak", JObj [("snaktype", JStr "novalue")])];
                      JObj [("mainsnak",
                             JObj [("datavalue",
                                    JObj [("value", JObj [("id", JStr "Q1")])])])]])])].

(** A network that knows [Q9] only. *)
Definition sample_http (url : string) : option json :=
  if String.eqb url (entity_url "Q9")
  then Some (JObj [("entities", JObj [("Q9", sample_entity)])])
  else None.

(** * Analysis plots: [analyze_test_results.py], [analyze_validation_results.py]

    [plot_label_distribution] (test) and [plot_prediction_distribution]
    (validation) compute the same bar data from two count tables before
    drawing: [sorted(set(rbc_counts.index).union(hyb_counts.index))] is
    the label axis, and each table contributes [counts.get(label, 0)]
    per label.  A count table is a pandas Series produced by
    [value_counts()]: a map from distinct labels to counts.  The model
    returns the three lists handed to [ax.set_xticklabels] and
    [ax.bar]; the drawing itself is not modelled.  Python compares
    strings by code point, which is [String.le] on the strings used
    here. *)

Definition bar_labels (rbc_counts hyb_counts : gmap string nat) : list string :=
  merge_sort String.le (elements (dom rbc_counts ∪ dom hyb_counts)).

Definition bar_values (counts : gmap string nat) (labels : list string)
  : list nat :=
  map (fun label => default 0 (counts !! label)) labels.

Definition plot_label_distribution (rbc_counts hyb_counts : gmap string nat)
  : list string * list nat * list nat :=
  let labels := bar_labels rbc_counts hyb_counts in
  (labels, bar_values rbc_counts labels, bar_values hyb_counts labels).

(** * Properties *)

(** ** Sanity checks of the embedding *)

Example title_agnostic : PyStr.title "cultural agnostic" = "Cultural Agnostic".
Proof. reflexivity. Qed.

Example title_apostrophe : PyStr.title "it's oral" = "It'S Oral".
Proof. reflexivity. Qed.

Example strip_both : PyStr.strip "  Diwali festival " = "Diwali festival".
Proof. reflexivity. Qed.

Example literal_two : Literal.literal_eval "['q1', 'q2']" = Done ["q1"; "q2"].
Proof. reflexivity. Qed.

Example literal_empty : Literal.literal_eval "[]" = Done [].
Proof. reflexivity. Qed.

Example literal_open : Literal.literal_eval "['q1', 'q2'" = Raised LiteralError.
Proof. reflexivity. Qed.

Example literal_number : Literal.literal_eval "[1, 2]" = Beyond.
Proof. reflexivity. Qed.

Example extract_url : extract_qid "http://www.wikidata.org/entity/Q42" = Some "Q42".
Proof. reflexivity. Qed.

Example cascade_heritage_first :
  rule_based_classifier
    {[ "heritage_status" := ["q1"]; "part_of_culture" := ["q2"] ]}
    ∅ {[ "q2" := "Oral Tradition" ]} {[ "q1" := "Tangible" ]}
  = ("Tangible", RULE).
Proof. vm_compute. reflexivity. Qed.

(** ** The rule cascade *)

Section Cascade.

Implicit Types (table : gmap string string) (qids : list string).
Implicit Types (qid label : string).

Lemma nonempty_true label : PyStr.nonempty label = true ↔ label ≠ "".
Proof. destruct label; simpl; split; congruence. Qed.

Lemma nonempty_false label : PyStr.nonempty label = false ↔ label = "".
Proof. destruct label; simpl; split; congruence. Qed.

Lemma no_hit_nil table : no_hit table [].
Proof. intros qid label Hin. by apply elem_of_nil in Hin. Qed.

Lemma no_hit_cons table qid qids :
  no_hit table (qid :: qids) ↔ (∀ label, ¬ hit table qid label) ∧ no_hit table qids.
Proof.
  split.
  - intros H. split.
    + intros label. apply H. by left.
    + intros q label Hin. apply H. by right.
  - intros [Hq Hrest] q label Hin.
    apply elem_of_cons in Hin as [-> | Hin]; [apply Hq | by apply Hrest].
Qed.

(** One step of the loop, by cases on the test. *)
Lemma lookup_loop_step table qid qids :
  (∃ label, hit table qid label ∧ lookup_loop table (qid :: qids) = Some label)
  ∨ ((∀ label, ¬ hit table qid label)
     ∧ lookup_loop table (qid :: qids) = lookup_loop table qids).
Proof.
  simpl. destruct (table !! PyStr.lower qid) as [label|] eqn:Hget.
  - destruct (PyStr.nonempty label) eqn:Hne.
    + left. exists label. split; [|done].
      split; [done | by apply nonempty_true].
    + right. split; [|done].
      intros label' [Hl Hl']. apply nonempty_false in Hne. congruence.
  - right. split; [|done]. intros label' [Hl _]. congruence.
Qed.

Lemma lookup_loop_None table qids :
  lookup_loop table qids = None ↔ no_hit table qids.
Proof.
  induction qids as [|qid qids IH].
  - split; [intros _; apply no_hit_nil | done].
  - rewrite no_hit_cons.
    destruct (lookup_loop_step table qid qids) as [(label & Hhit & ->) | [Hno ->]].
    + split; [done | intros [Hq _]; by destruct (Hq label)].
    + rewrite IH. tauto.
Qed.

Lemma lookup_loop_Some table qids label :
  lookup_loop table qids = Some label ↔ first_hit table qids label.
Proof.
  induction qids as [|qid qids IH].
  - split; [done|].
    intros (pre & q & post & Heq & _). by destruct pre.
  - destruct (lookup_loop_step table qid qids) as [(l & Hhit & ->) | [Hno ->]].
    + split.
      * intros [= <-]. exists [], qid, qids. split_and!; [done | apply no_hit_nil | done].
      * intros (pre & q & post & Heq & Hpre & Hq).
        destruct pre as [|p pre]; simpl in Heq; simplify_eq.
        -- destruct Hhit as [H1 _], Hq as [H2 _]. congruence.
        -- apply no_hit_cons in Hpre as [Hp _]. by destruct (Hp l).
    + rewrite IH. split.
      * intros (pre & q & post & -> & Hpre & Hq).
        exists (qid :: pre), q, post. split_and!; [done | | done].
        by apply no_hit_cons.
      * intros (pre & q & post & Heq & Hpre & Hq).
        destruct pre as [|p pre]; simpl in Heq; simplify_eq.
        -- by destruct (Hno label).
        -- exists pre, q, post. apply no_hit_cons in Hpre as [_ Hpre]. done.
Qed.

(** The label returned by a loop is never empty. *)
Lemma lookup_loop_nonempty table qids label :
  lookup_loop table qids = Some label → label ≠ "".
Proof.
  rewrite lookup_loop_Some. by intros (_ & _ & _ & _ & _ & _ & ?).
Qed.

End Cascade.

(** C1 (as amended).  The cascade consults [heritage_status], then
    [part_of_culture], then [instance_of], where an identifier matches a
    table when the table has a non-empty label for its lower-case form: the
    result is [RULE] with the label of the first matching identifier of the
    first list that has one, whatever the later lists and tables hold. *)
Theorem C1_priority_order
    (row : gmap string (list string))
    (instance_map culture_map heritage_map : gmap string string)
    (label : string) :
  first_hit heritage_map (row_get row "heritage_status") label
  ∨ (no_hit heritage_map (row_get row "heritage_status")
     ∧ first_hit culture_map (row_get row "part_of_culture") label)
  ∨ (no_hit heritage_map (row_get row "heritage_status")
     ∧ no_hit culture_map (row_get row "part_of_culture")
     ∧ first_hit instance_map (row_get row "instance_of") label) →
  rule_based_classifier row instance_map culture_map heritage_map = (label, RULE).
Proof.
  unfold rule_based_classifier.
  intros [Hh | [[Hh Hc] | (Hh & Hc & Hi)]].
  - apply lookup_loop_Some in Hh. by rewrite Hh.
  - apply lookup_loop_None in Hh. apply lookup_loop_Some in Hc.
    by rewrite Hh, Hc.
  - apply lookup_loop_None in Hh, Hc. apply lookup_loop_Some in Hi.
    by rewrite Hh, Hc, Hi.
Qed.

(** The heritage table decides although the culture and instance tables
    match too, and the first of two matching identifiers wins; the culture
    table decides before the instance table. *)
Lemma C1_priority_order_witness :
  rule_based_classifier
    {[ "heritage_status" := ["q9"; "Q1"; "q3"];
       "part_of_culture" := ["q2"]; "instance_of" := ["q4"] ]}
    {[ "q4" := "Instance" ]} {[ "q2" := "Oral Tradition" ]}
    {[ "q1" := "Tangible"; "q3" := "Natural" ]}
  = ("Tangible", RULE)
  ∧ rule_based_classifier
      {[ "part_of_culture" := ["q2"]; "instance_of" := ["q4"] ]}
      {[ "q4" := "Instance" ]} {[ "q2" := "Oral Tradition" ]}
      {[ "q1" := "Tangible" ]}
    = ("Oral Tradition", RULE).
Proof.
  split.
  - apply C1_priority_order. left.
    exists ["q9"], "Q1", ["q3"]. split_and!.
    + vm_compute. reflexivity.
    + intros qid label Hin [Hget _].
      apply list_elem_of_singleton in Hin as ->. vm_compute in Hget. discriminate.
    + split; [vm_compute; reflexivity | discriminate].
  - apply C1_priority_order. right. left. split.
    + intros qid label Hin. vm_compute in Hin. by apply elem_of_nil in Hin.
    + exists [], "q2", []. split_and!.
      * vm_compute. reflexivity.
      * apply no_hit_nil.
      * split; [vm_compute; reflexivity | discriminate].
Defined.

(** C1 (as stated) fails: an identifier of [heritage_status] is a key of
    the heritage table, yet the cascade does not answer with [RULE] and
    that key's label.  Once the key's label is empty, once the key is not
    in lower case. *)
Lemma C1_counterexample :
  (let row : gmap string (list string) := {[ "heritage_status" := ["q1"] ]} in
   let heritage_map : gmap string string := {[ "q1" := "" ]} in
   "q1" ∈ row_get row "heritage_status"
   ∧ heritage_map !! "q1" = Some ""
   ∧ rule_based_classifier row ∅ ∅ heritage_map = (AGNOSTIC, UNRESOLVED))
  ∧
  (let row : gmap string (list string) := {[ "heritage_status" := ["Q1"] ]} in
   let heritage_map : gmap string string := {[ "Q1" := "Tangible" ]} in
   "Q1" ∈ row_get row "heritage_status"
   ∧ heritage_map !! "Q1" = Some "Tangible"
   ∧ rule_based_classifier row ∅ ∅ heritage_map = (AGNOSTIC, UNRESOLVED)).
Proof.
  split; simpl; (split_and!; [vm_compute; by left | vm_compute; reflexivity ..]).
Qed.

(** Lists without identifiers never hit. *)
Lemma cascade_empty_lists
    (row : gmap string (list string))
    (instance_map culture_map heritage_map : gmap string string) :
  row_get row "heritage_status" = [] →
  row_get row "part_of_culture" = [] →
  row_get row "instance_of" = [] →
  rule_based_classifier row instance_map culture_map heritage_map
  = (AGNOSTIC, UNRESOLVED).
Proof. unfold rule_based_classifier. by intros -> -> ->. Qed.

(** C6.  When no identifier of the three consulted lists matches its table,
    the cascade answers ["Cultural Agnostic"] with [UNRESOLVED]; lists that
    are empty or absent from the row are such lists. *)
Theorem C6_unresolved
    (row : gmap string (list string))
    (instance_map culture_map heritage_map : gmap string string) :
  no_hit heritage_map (row_get row "heritage_status") →
  no_hit culture_map (row_get row "part_of_culture") →
  no_hit instance_map (row_get row "instance_of") →
  rule_based_classifier row instance_map culture_map heritage_map
  = ("Cultural Agnostic", UNRESOLVED).
Proof.
  intros Hh Hc Hi. unfold rule_based_classifier.
  apply lookup_loop_None in Hh, Hc, Hi. by rewrite Hh, Hc, Hi.
Qed.

Lemma C6_unresolved_witness :
  rule_based_classifier
    {[ "heritage_status" := []; "part_of_culture" := []; "instance_of" := [] ]}
    {[ "q4" := "Instance" ]} {[ "q2" := "Oral Tradition" ]} {[ "q1" := "Tangible" ]}
  = ("Cultural Agnostic", UNRESOLVED)
  ∧ rule_based_classifier
      {[ "heritage_status" := ["q7"]; "country" := ["q1"] ]}
      {[ "q4" := "Instance" ]} {[ "q2" := "Oral Tradition" ]} {[ "q1" := "Tangible" ]}
    = ("Cultural Agnostic", UNRESOLVED).
Proof.
  split.
  - apply C6_unresolved;
      intros qid label Hin; vm_compute in Hin; by apply elem_of_nil in Hin.
  - apply C6_unresolved.
    + intros qid label Hin [Hget _]. vm_compute in Hin.
      apply list_elem_of_singleton in Hin as ->. vm_compute in Hget. discriminate.
    + intros qid label Hin. vm_compute in Hin. by apply elem_of_nil in Hin.
    + intros qid label Hin. vm_compute in Hin. by apply elem_of_nil in Hin.
Defined.

(** ** Empty labels *)

Lemma lookup_drop_empty table key label :
  drop_empty table !! key = Some label ↔ table !! key = Some label ∧ label ≠ "".
Proof.
  unfold drop_empty. rewrite lookup_omap.
  destruct (table !! key) as [l|]; simpl; [|split; [done | by intros [? _]]].
  destruct (PyStr.nonempty l) eqn:Hne.
  - apply nonempty_true in Hne. split; [by intros [= <-] | by intros [? _]].
  - apply nonempty_false in Hne. split; [done | intros [[= <-] ?]; done].
Qed.

Lemma hit_drop_empty table qid label :
  hit (drop_empty table) qid label ↔ hit table qid label.
Proof. unfold hit. rewrite lookup_drop_empty. tauto. Qed.

Lemma lookup_loop_drop_empty table qids :
  lookup_loop (drop_empty table) qids = lookup_loop table qids.
Proof.
  induction qids as [|qid qids IH]; [done|].
  destruct (lookup_loop_step table qid qids) as [(l & Hhit & ->) | [Hno ->]];
    destruct (lookup_loop_step (drop_empty table) qid qids)
      as [(l' & Hhit' & ->) | [Hno' ->]]; try done.
  - rewrite hit_drop_empty in Hhit'.
    destruct Hhit as [H1 _], Hhit' as [H2 _]. congruence.
  - destruct (Hno' l). by rewrite hit_drop_empty.
  - rewrite hit_drop_empty in Hhit'. by destruct (Hno l').
Qed.

(** An entry with the empty label is stepped over. *)
Lemma lookup_loop_skip_empty table qid qids :
  table !! PyStr.lower qid = Some "" →
  lookup_loop table (qid :: qids) = lookup_loop table qids.
Proof. intros H. simpl. by rewrite H. Qed.

(** C10.  The cascade treats an identifier whose table label is the empty
    string as absent from the table: every loop, and so the classifier,
    gives the result it gives with all such entries removed from the
    tables, going on to later identifiers and later lists; and the
    prediction is never the empty string. *)
Theorem C10_empty_label_is_absent
    (row : gmap string (list string))
    (instance_map culture_map heritage_map : gmap string string) :
  rule_based_classifier row instance_map culture_map heritage_map
  = rule_based_classifier row (drop_empty instance_map)
      (drop_empty culture_map) (drop_empty heritage_map)
  ∧ (∀ table qids, lookup_loop table qids = lookup_loop (drop_empty table) qids)
  ∧ (rule_based_classifier row instance_map culture_map heritage_map).1 ≠ "".
Proof.
  split_and!.
  - unfold rule_based_classifier. by rewrite !lookup_loop_drop_empty.
  - intros table qids. by rewrite lookup_loop_drop_empty.
  - unfold rule_based_classifier.
    destruct (lookup_loop heritage_map _) eqn:Hh;
      [by apply lookup_loop_nonempty in Hh|].
    destruct (lookup_loop culture_map _) eqn:Hc;
      [by apply lookup_loop_nonempty in Hc|].
    destruct (lookup_loop instance_map _) eqn:Hi;
      [by apply lookup_loop_nonempty in Hi|].
    done.
Qed.

Example empty_label_skipped :
  rule_based_classifier
    {[ "heritage_status" := ["q1"; "q5"]; "part_of_culture" := ["q2"] ]}
    ∅ {[ "q2" := "Oral Tradition" ]} {[ "q1" := "" ]}
  = ("Oral Tradition", RULE).
Proof. vm_compute. reflexivity. Qed.

(** ** Table keys and casing *)

Lemma lower_char_idemp c : PyStr.lower_char (PyStr.lower_char c) = PyStr.lower_char c.
Proof.
  destruct c as [[] [] [] [] [] [] [] []]; reflexivity.
Qed.

Lemma lower_idemp s : PyStr.lower (PyStr.lower s) = PyStr.lower s.
Proof.
  induction s as [|c s IH]; simpl; [done|]. by rewrite lower_char_idemp, IH.
Qed.

(** The keys of a loaded table are the [qid] cells of its rows, as read. *)
Lemma foldl_insert_keys (rows : list (string * string)) (m : gmap string string) key :
  is_Some (foldl (fun m kv => <[kv.1 := kv.2]> m) m rows !! key)
  ↔ is_Some (m !! key) ∨ key ∈ rows.*1.
Proof.
  revert m. induction rows as [|[k v] rows IH]; intros m; simpl.
  - rewrite elem_of_nil. tauto.
  - rewrite IH, elem_of_cons, lookup_insert_is_Some.
    destruct (decide (k = key)) as [->|Hne]; [tauto|].
    split.
    + intros [[? | [_ ?]] | ?]; [done | tauto | tauto].
    + intros [? | [? | ?]]; [left; right; done | congruence | by right].
Qed.

Lemma to_dict_keys (rows : list (string * string)) key :
  is_Some (to_dict rows !! key) ↔ key ∈ rows.*1.
Proof.
  unfold to_dict. rewrite foldl_insert_keys, lookup_empty.
  split; [intros [[? [=]] | ?]; done | by right].
Qed.

(** C4 (as amended).  The tables are used with the keys they are loaded
    with, and the cascade lower-cases an identifier before it looks it up.
    So when the keys of the loaded table are in lower case, the loop finds,
    at an identifier of the list, the non-empty label the table holds for
    that identifier in any casing. *)
Theorem C4_lowercase_keys_lookup
    (rows : list (string * string)) (qid : string) (rest : list string)
    (key label : string) :
  Forall (fun kv => PyStr.lower kv.1 = kv.1) rows →
  to_dict rows !! key = Some label →
  label ≠ "" →
  PyStr.lower key = PyStr.lower qid →
  lookup_loop (to_dict rows) (qid :: rest) = Some label.
Proof.
  intros Hrows Hget Hne Hcase.
  assert (PyStr.lower key = key) as Hkey.
  { assert (key ∈ rows.*1) as Hin by (apply to_dict_keys; eauto).
    apply list_elem_of_fmap in Hin as ([k v] & -> & Hin).
    rewrite Forall_forall in Hrows. exact (Hrows _ Hin). }
  apply lookup_loop_Some. exists [], qid, rest.
  split_and!; [done | apply no_hit_nil |].
  split; [|done]. by rewrite <- Hcase, Hkey.
Qed.

Lemma C4_lowercase_keys_lookup_witness :
  lookup_loop (to_dict [("q1", "Tangible"); ("q2", "Natural")]) ["Q1"; "q2"]
  = Some "Tangible".
Proof.
  apply (C4_lowercase_keys_lookup _ "Q1" ["q2"] "q1" "Tangible").
  - repeat constructor.
  - vm_compute. reflexivity.
  - discriminate.
  - reflexivity.
Defined.

(** C4 (as stated) fails: the loader keeps the key [Q1] as it is, and the
    cascade, which looks for [q1], finds nothing for the identifier [Q1]
    nor for [q1]. *)
Lemma C4_counterexample :
  let '(instance_map, culture_map, heritage_map) :=
    load_golden_rules [] [] [("Q1", "Tangible")] in
  heritage_map !! "Q1" = Some "Tangible"
  ∧ heritage_map !! "q1" = None
  ∧ rule_based_classifier {[ "heritage_status" := ["Q1"] ]}
      instance_map culture_map heritage_map = (AGNOSTIC, UNRESOLVED)
  ∧ rule_based_classifier {[ "heritage_status" := ["q1"] ]}
      instance_map culture_map heritage_map = (AGNOSTIC, UNRESOLVED).
Proof. vm_compute. split_and!; reflexivity. Qed.

(** ** Evaluating the relationship cells *)

Section Cells.

Implicit Types (df : list entity_row) (r : entity_row) (field : string).

Lemma scan_raised st s e : Literal.scan st s = Raised e → e = LiteralError.
Proof.
  revert st. induction s as [|c s IH]; intros st; simpl.
  - destruct st; congruence.
  - destruct st; repeat case_match; eauto; congruence.
Qed.

Lemma eval_cell_raised x e : eval_cell x = Raised e → e = LiteralError.
Proof. destruct x; simpl; [apply scan_raised | congruence]. Qed.

Lemma apply_each_length {A B} (f : A → outcome B) l ys :
  apply_each f l = Done ys → length ys = length l.
Proof.
  revert ys. induction l as [|x l IH]; intros ys; simpl.
  - by intros [= <-].
  - destruct (f x); simpl; [|done..].
    destruct (apply_each f l) eqn:Hl; simpl; [|done..].
    intros [= <-]. simpl. f_equal. by apply IH.
Qed.

Lemma apply_each_ext {A B} (f g : A → outcome B) l :
  (∀ x, f x = g x) → apply_each f l = apply_each g l.
Proof.
  intros Hfg. induction l as [|x l IH]; simpl; [done|]. by rewrite Hfg, IH.
Qed.

Lemma apply_each_map {A B C} (f : B → outcome C) (g : A → B) l :
  apply_each f (map g l) = apply_each (fun x => f (g x)) l.
Proof. induction l as [|x l IH]; simpl; [done|]. by rewrite IH. Qed.

(** When every application returns or raises [e], the whole returns if
    all return and raises [e] if one raises. *)
Lemma apply_each_cases {A B} (f : A → outcome B) l e :
  (∀ x, x ∈ l → (∃ y, f x = Done y) ∨ f x = Raised e) →
  (∃ ys, apply_each f l = Done ys ∧ ∀ x, x ∈ l → ∃ y, f x = Done y)
  ∨ (apply_each f l = Raised e ∧ ∃ x, x ∈ l ∧ f x = Raised e).
Proof.
  induction l as [|x l IH]; intros H; simpl.
  - left. exists []. split; [done|]. intros x Hx. by apply elem_of_nil in Hx.
  - destruct (H x) as [[y Hy] | Hx]; [by left | |].
    + rewrite Hy. simpl.
      destruct IH as [(ys & -> & Hall) | (-> & x' & Hin & Hx')].
      * intros x' Hin. apply H. by right.
      * left. exists (y :: ys). split; [done|].
        intros x' Hin. apply elem_of_cons in Hin as [-> | Hin]; eauto.
      * right. split; [done|]. exists x'. split; [by right | done].
    + rewrite Hx. right. split; [done|]. exists x. split; [by left | done].
Qed.

Lemma eval_field_modelled r field x :
  e_cells r !! field = Some x → eval_cell x ≠ Beyond →
  (∃ ids, eval_field field r = Done ids)
  ∨ eval_field field r = Raised LiteralError.
Proof.
  intros Hx Hb. unfold eval_field. rewrite Hx.
  destruct (eval_cell x) as [ids|e|] eqn:He; [eauto | | done].
  right. f_equal. by apply eval_cell_raised in He.
Qed.

Lemma eval_field_raised r field :
  eval_field field r = Raised LiteralError →
  ∃ s, e_cells r !! field = Some (CStr s)
       ∧ Literal.literal_eval s = Raised LiteralError.
Proof.
  unfold eval_field. destruct (e_cells r !! field) as [[s|]|]; simpl; [eauto | done..].
Qed.

Lemma eval_columns_cases (fields : list string) df rows :
  cells_modelled df fields →
  (∃ out, eval_columns fields df rows = Done out ∧ ¬ bad_cell df fields)
  ∨ (eval_columns fields df rows = Raised LiteralError ∧ bad_cell df fields).
Proof.
  revert rows. induction fields as [|field fields IH]; intros rows Hm; simpl.
  - left. exists rows. split; [done|].
    intros (r & f & s & _ & Hf & _). by apply elem_of_nil in Hf.
  - unfold eval_column.
    destruct (apply_each_cases (eval_field field) df LiteralError)
      as [(col & Hcol & Hall) | (Hcol & r & Hin & Hr)].
    + intros r Hin. destruct (Hm r field Hin) as (x & Hx & Hb); [by left|].
      by eapply eval_field_modelled.
    + rewrite Hcol. simpl.
      destruct (IH (zip_with (fun m ids => <[field := ids]> m) rows col))
        as [(out & Hout & Hgood) | (Hout & Hbad)].
      * intros r f Hin Hf. apply Hm; [done | by right].
      * left. exists out. split; [done|].
        intros (r & f & s & Hin & Hf & Hcell & Hs).
        apply elem_of_cons in Hf as [-> | Hf].
        -- destruct (Hall r Hin) as [ids Hids].
           unfold eval_field in Hids. rewrite Hcell in Hids. simpl in Hids. congruence.
        -- apply Hgood. by exists r, f, s.
      * right. split; [done|].
        destruct Hbad as (r & f & s & Hin & Hf & Hcell & Hs).
        exists r, f, s. split_and!; [done | by right | done | done].
    + rewrite Hcol. right. split; [done|].
      apply eval_field_raised in Hr as (s & Hcell & Hs).
      exists r, field, s. split_and!; [done | by left | done | done].
Qed.

Lemma eval_columns_length (fields : list string) df rows out :
  length rows = length df →
  eval_columns fields df rows = Done out →
  length out = length df.
Proof.
  revert rows. induction fields as [|field fields IH]; intros rows Hlen; simpl.
  - by intros [= <-].
  - destruct (eval_column field df) as [col| |] eqn:Hcol; simpl; [|done..].
    apply IH. rewrite length_zip_with.
    apply apply_each_length in Hcol. lia.
Qed.

Lemma eval_field_nan_as_empty field r :
  eval_field field (nan_as_empty r) = eval_field field r.
Proof.
  unfold eval_field, nan_as_empty. simpl. rewrite lookup_fmap.
  by destruct (e_cells r !! field) as [[s|]|].
Qed.

Lemma eval_columns_nan_as_empty (fields : list string) df rows :
  eval_columns fields (map nan_as_empty df) rows = eval_columns fields df rows.
Proof.
  revert rows. induction fields as [|field fields IH]; intros rows; simpl; [done|].
  unfold eval_column. rewrite apply_each_map.
  rewrite (apply_each_ext _ (eval_field field)) by apply eval_field_nan_as_empty.
  destruct (apply_each (eval_field field) df); simpl; [apply IH | done..].
Qed.

Lemma zip_with_to_pred_nan_as_empty df results :
  zip_with to_pred (map nan_as_empty df) results = zip_with to_pred df results.
Proof.
  revert results. induction df as [|r df IH]; intros [|res results]; simpl; [done..|].
  by rewrite IH.
Qed.

Lemma classify_rows_nan_as_empty df instance_map culture_map heritage_map :
  classify_rows (map nan_as_empty df) instance_map culture_map heritage_map
  = classify_rows df instance_map culture_map heritage_map.
Proof.
  unfold classify_rows.
  rewrite eval_columns_nan_as_empty, length_map.
  destruct (eval_columns _ _ _) as [rows| |]; simpl; [|done..].
  by rewrite zip_with_to_pred_nan_as_empty.
Qed.

Lemma run_rules_nan_as_empty df instance_map culture_map heritage_map :
  run_rules (map nan_as_empty df) instance_map culture_map heritage_map
  = run_rules df instance_map culture_map heritage_map.
Proof.
  destruct df as [|r df]; [done|].
  apply (classify_rows_nan_as_empty (r :: df)).
Qed.

End Cells.

(** C5 (as amended).  Only a cell that holds no string is taken for the
    empty list: the run gives what it gives with the text of the empty list
    in its place.  A cell that holds a string is evaluated as a literal,
    and a string that cannot be evaluated raises and ends the run; without
    such a string the run returns. *)
Theorem C5_missing_cell_or_abort
    (df : list entity_row)
    (instance_map culture_map heritage_map : gmap string string) :
  df ≠ [] →
  cells_modelled df list_fields →
  run_rules (map nan_as_empty df) instance_map culture_map heritage_map
  = run_rules df instance_map culture_map heritage_map
  ∧ (bad_cell df list_fields →
     run_rules df instance_map culture_map heritage_map = Raised LiteralError)
  ∧ (¬ bad_cell df list_fields →
     ∃ preds, run_rules df instance_map culture_map heritage_map = Done preds).
Proof.
  intros Hdf Hm. split; [apply run_rules_nan_as_empty|].
  destruct df as [|r df]; [done|]. unfold run_rules, classify_rows.
  destruct (eval_columns_cases list_fields (r :: df)
              (replicate (length (r :: df)) ∅) Hm)
    as [(out & -> & Hgood) | (-> & Hbad)]; simpl bind.
  - split; [done | eauto].
  - split; [done | tauto].
Qed.

Lemma cells_modelledb_sound df fields :
  cells_modelledb df fields = true → cells_modelled df fields.
Proof.
  unfold cells_modelledb, cells_modelled. rewrite forallb_forall.
  intros H r field Hr Hf. apply list_elem_of_In in Hr, Hf.
  specialize (H r Hr). rewrite forallb_forall in H. specialize (H field Hf).
  destruct (e_cells r !! field) as [x|]; [|done].
  exists x. split; [done|]. by destruct (eval_cell x).
Qed.

Lemma bad_cellb_complete df fields :
  bad_cell df fields → bad_cellb df fields = true.
Proof.
  intros (r & field & s & Hr & Hf & Hcell & Hs).
  apply list_elem_of_In in Hr, Hf.
  unfold bad_cellb. apply existsb_exists. exists r. split; [done|].
  apply existsb_exists. exists field. split; [done|].
  by rewrite Hcell, Hs.
Qed.

Lemma C5_missing_cell_or_abort_witness :
  let good := [entity "Q1" CNaN (CStr "['q2']") CNaN] in
  let bad := [entity "Q1" CNaN (CStr "['q2']") CNaN;
              entity "Q2" (CStr "['q1', ") CNaN CNaN] in
  let culture_map : gmap string string := {[ "q2" := "oral tradition" ]} in
  run_rules good ∅ culture_map ∅
  = run_rules [entity "Q1" (CStr "[]") (CStr "['q2']") (CStr "[]")] ∅ culture_map ∅
  ∧ (∃ preds, run_rules good ∅ culture_map ∅ = Done preds)
  ∧ run_rules bad ∅ culture_map ∅ = Raised LiteralError.
Proof.
  intros good bad culture_map.
  assert (good ≠ []) as Hgood by done.
  assert (bad ≠ []) as Hbad by done.
  assert (cells_modelled good list_fields) as Hmg
    by (apply cells_modelledb_sound; vm_compute; reflexivity).
  assert (cells_modelled bad list_fields) as Hmb
    by (apply cells_modelledb_sound; vm_compute; reflexivity).
  destruct (C5_missing_cell_or_abort good ∅ culture_map ∅ Hgood Hmg) as (Hnan & _ & Hdone).
  destruct (C5_missing_cell_or_abort bad ∅ culture_map ∅ Hbad Hmb) as (_ & Hraise & _).
  split_and!.
  - rewrite <- Hnan. vm_compute. reflexivity.
  - apply Hdone. intros Hb. apply bad_cellb_complete in Hb.
    vm_compute in Hb. discriminate.
  - apply Hraise. exists (entity "Q2" (CStr "['q1', ") CNaN CNaN), "heritage_status", "['q1', ".
    split_and!; [by right; left | by repeat (left || right) | vm_compute; reflexivity..].
Defined.

(** C5 (as stated) fails: a [heritage_status] cell whose list is not closed
    cannot be evaluated, and the run raises instead of classifying the
    entity with an empty list. *)
Lemma C5_counterexample :
  let df := [entity "Q1" (CStr "['q1', ") (CStr "[]") (CStr "[]")] in
  Literal.literal_eval "['q1', " = Raised LiteralError
  ∧ run_rules df ∅ ∅ ∅ = Raised LiteralError
  ∧ run_rules [entity "Q1" (CStr "[]") (CStr "[]") (CStr "[]")] ∅ ∅ ∅
    = Done [ {| qid := Some "Q1"; label := None;
                prediction := Some "Cultural Agnostic";
                source := Some UNRESOLVED |} ].
Proof. vm_compute. split_and!; reflexivity. Qed.

(** ** The fallback merge *)

Section Fallback.

Implicit Types (df : list hyb_row) (r : hyb_row) (model : classifier).
Implicit Types (preds : list (option string)).

Lemma lookup_map {A B} (f : A → B) (l : list A) i :
  map f l !! i = f <$> l !! i.
Proof. change (map f l) with (f <$> l). apply list_lookup_fmap. Qed.

Lemma string_length_pos (s : string) : (0 <? String.length s)%nat = true ↔ s ≠ "".
Proof. destruct s; simpl; split; (done || lia || congruence). Qed.

Lemma in_mask_eligible r : in_mask r = true ↔ eligible r.
Proof.
  unfold in_mask, eligible. rewrite andb_true_iff, String.eqb_eq, string_length_pos.
  split.
  - intros [Hp Ht]. destruct (m_prediction r) as [p|]; [|discriminate].
    exists p. split_and!; done.
  - intros (p & -> & Hp & Ht). split; [exact Hp | done].
Qed.

Lemma not_in_mask_eligible r : in_mask r = false ↔ ¬ eligible r.
Proof. rewrite <- in_mask_eligible. by destruct (in_mask r). Qed.

(** The frame is left as it is when no row is masked. *)
Lemma overwrite_no_mask df preds :
  existsb in_mask df = false → overwrite df preds = df.
Proof.
  induction df as [|r df IH]; simpl; [done|].
  rewrite orb_false_iff. intros [-> H]. by rewrite IH.
Qed.


Lemma rank_cons r df i :
  rank (r :: df) (S i) = ((if in_mask r then 1 else 0) + rank df i)%nat.
Proof. unfold rank. simpl. by destruct (in_mask r). Qed.

(** Row [i] after the overwrite. *)
Lemma overwrite_lookup df preds i r :
  df !! i = Some r →
  overwrite df preds !! i
  = Some (if in_mask r
          then match preds !! rank df i with
               | Some p => with_fallback r p
               | None => r
               end
          else r).
Proof.
  revert preds i. induction df as [|r0 df IH]; intros preds i Hi; [done|].
  destruct i as [|i]; simpl in Hi.
  - injection Hi as ->. simpl.
    destruct (in_mask r); [|done]. by destruct preds.
  - rewrite rank_cons. simpl. destruct (in_mask r0).
    + destruct preds as [|p preds]; simpl.
      * rewrite (IH [] i Hi). by destruct (in_mask r).
      * by rewrite (IH preds i Hi).
    + simpl. by rewrite (IH preds i Hi).
Qed.



Lemma finish_eq df : finish df = (warning (map fill_source df), map fill_source df).
Proof.
  unfold finish, warning. by destruct (length (List.filter is_na (map fill_source df))).
Qed.

(** What a returning [apply_ml_fallback] has done: the frame is the input
    with the masked rows overwritten from [labels] and the missing sources
    filled; when a row is masked, [labels] is the classifier's answer to the
    batch of the masked rows' texts; the events are that call, if any, and
    the warning. *)
Lemma apply_ml_fallback_Done df model events df' :
  apply_ml_fallback df model = (events, Done df') →
  ∃ labels,
    df' = map fill_source (overwrite df labels)
    ∧ ((existsb in_mask df = true
        ∧ model (fallback_texts df) = Some labels
        ∧ length labels = length (fallback_texts df)
        ∧ events = Predicted (fallback_texts df) :: warning df')
       ∨ (existsb in_mask df = false ∧ labels = [] ∧ events = warning df')).
Proof.
  unfold apply_ml_fallback. fold (fallback_texts df).
  destruct (existsb in_mask df) eqn:Hany.
  - destruct (model (fallback_texts df)) as [labels|] eqn:Hmodel; [|done].
    destruct (length labels =? length (fallback_texts df))%nat eqn:Hlen; [|done].
    rewrite finish_eq. intros [= <- <-].
    exists labels. split; [done|]. left.
    apply Nat.eqb_eq in Hlen. done.
  - rewrite finish_eq. intros [= <- <-].
    exists []. rewrite overwrite_no_mask by done. split; [done|]. by right.
Qed.

Lemma fill_source_source r : m_source (fill_source r) = Some (default "QID" (m_source r)).
Proof. done. Qed.

Lemma fill_source_id r s : m_source r = Some s → fill_source r = r.
Proof. destruct r. simpl. by intros ->. Qed.

End Fallback.

(** C3 (as amended).  After the overwrite, a row whose source is still
    missing gets the source ['QID'], the tag of the rule hits; every row
    then has a source.  Nothing is reported about these rows: apart from
    the call of the classifier, the only event is the warning that counts
    the missing predictions. *)
Theorem C3_missing_source_defaults_to_rule
    (df : list hyb_row) (model : classifier)
    (events : list event) (df' : list hyb_row) :
  apply_ml_fallback df model = (events, Done df') →
  (∀ i r, df !! i = Some r → ¬ eligible r → m_source r = None →
     ∃ r', df' !! i = Some r' ∧ m_source r' = Some RULE
           ∧ m_prediction r' = m_prediction r)
  ∧ Forall (fun r' => is_Some (m_source r')) df'
  ∧ (∀ e, e ∈ events →
       e = Predicted (fallback_texts df)
       ∨ e = Warned (length (List.filter is_na df'))).
Proof.
  intros H. apply apply_ml_fallback_Done in H as (labels & -> & Hev).
  split_and!.
  - intros i r Hi Hne Hsrc. apply not_in_mask_eligible in Hne.
    rewrite lookup_map, (overwrite_lookup _ _ _ _ Hi), Hne. simpl.
    eexists. split; [done|]. simpl. by rewrite Hsrc.
  - apply Forall_forall. intros r' Hin.
    apply list_elem_of_In, in_map_iff in Hin as (r & <- & _). by eexists.
  - assert (∀ e, e ∈ warning (map fill_source (overwrite df labels)) →
              e = Warned (length (List.filter is_na (map fill_source (overwrite df labels)))))
      as Hwarn.
    { unfold warning. intros e.
      destruct (length (List.filter is_na (map fill_source (overwrite df labels)))).
      - by intros ?%elem_of_nil.
      - by intros ->%list_elem_of_singleton. }
    intros e He. destruct Hev as [(_ & _ & _ & ->) | (_ & _ & ->)].
    + apply elem_of_cons in He as [-> | He]; [by left | right; by apply Hwarn].
    + right. by apply Hwarn.
Qed.

(** ** The merged frame *)

Section Merged.

Implicit Types (preds : list pred_row) (raw : list text_row).

(** Every row of the merged frame comes from a row of the prediction
    table, and its text is the joined text. *)
Lemma merge_rows preds raw r :
  r ∈ merge_predictions_with_text preds raw →
  ∃ p, p ∈ preds
       ∧ m_qid r = qid p ∧ m_label r = label p
       ∧ m_prediction r = prediction p ∧ m_source r = source p
       ∧ m_text r = joined_text r.
Proof.
  unfold merge_predictions_with_text, left_merge.
  intros Hr. apply list_elem_of_In, in_map_iff in Hr as ([p t] & <- & Hin).
  apply in_flat_map in Hin as (p' & Hp' & Hin).
  assert (p = p') as ->.
  { destruct (List.filter _ raw) as [|t0 ts]; simpl in Hin.
    - destruct Hin as [[=] | []]. done.
    - change (In (p, t) (map (fun t => (p', Some t)) (t0 :: ts))) in Hin.
      apply in_map_iff in Hin as (? & [=] & _). done. }
  exists p'. split; [by apply list_elem_of_In | done].
Qed.

End Merged.


(** ** The scripts' [main] *)

Section Main.

Implicit Types (a : args) (w : world) (clf : classifier).
Implicit Types (df : list hyb_row) (preds : list pred_row) (rows : list raw_row).

(** [main] once its three input files are there. *)
Lemma main_with_run columns select a w preds rows clf :
  files w !! input a = Some (PredsCsv preds) →
  files w !! raw a = Some (RawCsv rows) →
  files w !! model a = Some (ModelPkl clf) →
  main_with columns select a w
  = let df := merge_predictions_with_text preds (load_raw_text rows) in
    let w1 := {| files := files w;
                 trace := trace w ++ (apply_ml_fallback df clf).1 |} in
    match (apply_ml_fallback df clf).2 with
    | Done df' =>
        (Done tt,
         {| files := <[output a := HybridCsv columns (map select df')]> (files w);
            trace := trace w1 ++ [Saved (output a)] |})
    | Raised e => (Raised e, w1)
    | Beyond => (Beyond, w1)
    end.
Proof.
  intros Hp Hr Hm. unfold main_with, io_bind, read_preds, read_raw, load_model.
  rewrite Hp. simpl. rewrite Hr. simpl. rewrite Hm. simpl.
  destruct (apply_ml_fallback _ clf) as [events [df'| |]]; reflexivity.
Qed.

Lemma fallback_texts_any df : fallback_texts df ≠ [] → existsb in_mask df = true.
Proof.
  unfold fallback_texts. induction df as [|r df IH]; simpl; [done|].
  destruct (in_mask r); [done|]. exact IH.
Qed.

(** A classifier that raises makes [apply_ml_fallback] raise. *)
Lemma apply_ml_fallback_raises df clf :
  fallback_texts df ≠ [] → clf (fallback_texts df) = None →
  apply_ml_fallback df clf = ([Predicted (fallback_texts df)], Raised PredictError).
Proof.
  intros Hne Hclf. unfold apply_ml_fallback. fold (fallback_texts df).
  by rewrite (fallback_texts_any df Hne), Hclf.
Qed.

(** [main] raises without touching a file when the classifier raises, and
    it changes the files only by writing the output, after
    [apply_ml_fallback] has returned the whole frame. *)
Lemma main_with_writes_last columns select a w preds rows clf :
  files w !! input a = Some (PredsCsv preds) →
  files w !! raw a = Some (RawCsv rows) →
  files w !! model a = Some (ModelPkl clf) →
  let df := merge_predictions_with_text preds (load_raw_text rows) in
  (fallback_texts df ≠ [] → clf (fallback_texts df) = None →
   ∃ w', main_with columns select a w = (Raised PredictError, w')
         ∧ files w' = files w)
  ∧ (∀ res w', main_with columns select a w = (res, w') →
       files w' ≠ files w →
       res = Done tt
       ∧ ∃ events df',
           apply_ml_fallback df clf = (events, Done df')
           ∧ files w' = <[output a := HybridCsv columns (map select df')]> (files w)).
Proof.
  intros Hp Hr Hm df. rewrite (main_with_run _ _ _ _ _ _ _ Hp Hr Hm).
  cbv zeta. fold df. split.
  - intros Hne Hclf. rewrite (apply_ml_fallback_raises df clf Hne Hclf). simpl. eauto.
  - intros res w'. destruct (apply_ml_fallback df clf) as [events [df'| |]] eqn:Hfb;
      simpl; intros [= <- <-]; simpl; [|done..].
    intros _. split; [done|]. eauto.
Qed.

End Main.

(** C7.  When the classifier raises on the non-empty batch of eligible
    texts, [main] of either script raises and leaves every file as it was:
    no output table is written.  A run changes the files only by writing
    the output table, and only after the fallback step has returned the
    frame with all its rows. *)
Theorem C7_no_output_when_classifier_raises
    (a : args) (w : world) (preds : list pred_row) (rows : list raw_row)
    (clf : classifier) :
  files w !! input a = Some (PredsCsv preds) →
  files w !! raw a = Some (RawCsv rows) →
  files w !! model a = Some (ModelPkl clf) →
  let df := merge_predictions_with_text preds (load_raw_text rows) in
  (fallback_texts df ≠ [] → clf (fallback_texts df) = None →
   (∃ w', main_validation a w = (Raised PredictError, w') ∧ files w' = files w)
   ∧ (∃ w', main_test a w = (Raised PredictError, w') ∧ files w' = files w))
  ∧ (∀ res w',
       main_validation a w = (res, w') ∨ main_test a w = (res, w') →
       files w' ≠ files w →
       res = Done tt
       ∧ ∃ events df' columns out,
           apply_ml_fallback df clf = (events, Done df')
           ∧ length out = length df'
           ∧ files w' = <[output a := HybridCsv columns out]> (files w)).
Proof.
  intros Hp Hr Hm df.
  pose proof (fun columns select =>
                main_with_writes_last columns select a w preds rows clf Hp Hr Hm)
    as Hmain.
  split.
  - intros Hne Hclf. split; apply Hmain; done.
  - intros res w' [Hrun | Hrun] Hw;
      apply Hmain in Hrun as (-> & events & df' & Hfb & ->); try done;
      (split; [done|]); eexists events, df', _, _;
      (split_and!; [exact Hfb | by rewrite length_map | done]).
Qed.

(** ** Rows in, rows out *)

Section Rows.

Implicit Types (preds : list pred_row) (raw : list text_row).
Implicit Types (df : list hyb_row) (labels : list (option string)).

(** A key that occurs once among the text rows selects at most one. *)
Lemma NoDup_filter_key raw (key : option string) :
  NoDup (map t_qid raw) →
  (length (List.filter (fun t => same_key key (t_qid t)) raw) ≤ 1)%nat.
Proof.
  induction raw as [|t raw IH]; simpl; [lia|].
  intros Hnd. apply NoDup_cons in Hnd as [Hnotin Hnd].
  destruct (same_key key (t_qid t)) eqn:Hkey; [|by apply IH].
  apply bool_decide_eq_true in Hkey as ->.
  destruct (List.filter _ raw) as [|t' ts] eqn:Hf; [simpl; lia|].
  exfalso. apply Hnotin.
  assert (In t' (List.filter (fun t0 => same_key (t_qid t) (t_qid t0)) raw)) as Hin
    by (rewrite Hf; by left).
  apply filter_In in Hin as [Hin Heq]. apply bool_decide_eq_true in Heq.
  rewrite Heq. apply list_elem_of_In, in_map. exact Hin.
Qed.

Lemma NoDup_text_unique preds raw : NoDup (map t_qid raw) → text_unique preds raw.
Proof. intros Hnd p _. by apply NoDup_filter_key. Qed.

(** The fallback step keeps the rows in place, with their [qid] and
    [label]. *)
Lemma fallback_frame_Forall2 df labels :
  Forall2 (fun r r' => m_qid r' = m_qid r ∧ m_label r' = m_label r)
          df (map fill_source (overwrite df labels)).
Proof.
  revert labels. induction df as [|r df IH]; intros labels; simpl; [constructor|].
  destruct (in_mask r); [destruct labels as [|l labels]|]; simpl;
    constructor; (done || apply IH).
Qed.

Lemma pred_of_merged (p : pred_row) (t : option text_row) name description text :
  pred_of {| m_qid := qid p; m_label := label p;
             m_prediction := prediction p; m_source := source p;
             m_name := name; m_description := description; m_text := text |}
  = p.
Proof. by destruct p. Qed.

Lemma map_fst_matches (p : pred_row) (matches : list text_row) :
  map fst (map (fun t => (p, Some t)) matches) = replicate (length matches) p.
Proof. induction matches as [|t ts IH]; simpl; [done|]. by rewrite IH. Qed.

Lemma left_merge_fst_repeat preds raw :
  map fst (left_merge preds raw)
  = flat_map (fun p => replicate (Nat.max 1 (text_matches p raw)) p) preds.
Proof.
  unfold left_merge, text_matches. induction preds as [|p preds IH]; [done|].
  cbn [flat_map]. rewrite map_app, IH. f_equal.
  destruct (List.filter _ raw) as [|t ts]; [done|].
  by rewrite map_fst_matches.
Qed.

End Rows.

Section Presence.

Implicit Types (df : list hyb_row) (r : hyb_row).



Lemma joined_rows_length preds raw :
  (length preds ≤ length (joined_rows preds raw))%nat
  ∧ (length (joined_rows preds raw) = length preds → text_unique preds raw).
Proof.
  unfold joined_rows, text_unique, text_matches.
  induction preds as [|p preds [IHle IHeq]]; simpl.
  - split; [lia|]. intros _ p Hp. by apply elem_of_nil in Hp.
  - rewrite length_app, length_replicate. split; [lia|].
    intros Hlen p' Hp'. apply elem_of_cons in Hp' as [-> | Hp'].
    + lia.
    + apply IHeq; [lia | done].
Qed.

Lemma joined_rows_unique preds raw :
  text_unique preds raw → joined_rows preds raw = preds.
Proof.
  unfold joined_rows, text_unique, text_matches.
  induction preds as [|p preds IH]; intros Hu; simpl; [done|].
  rewrite IH by (intros p' Hp'; apply Hu; by right).
  assert (length (List.filter (fun t => same_key (qid p) (t_qid t)) raw) ≤ 1)%nat
    as Hp by (apply Hu; by left).
  destruct (length (List.filter (fun t => same_key (qid p) (t_qid t)) raw))
    as [|[|k]]; simpl; [done | done | lia].
Qed.

(** The merged frame, read on the columns of the prediction table. *)
Lemma merge_joined_rows preds raw :
  map pred_of (merge_predictions_with_text preds raw) = joined_rows preds raw.
Proof.
  unfold joined_rows. rewrite <- left_merge_fst_repeat.
  unfold merge_predictions_with_text.
  generalize (left_merge preds raw). intros l.
  induction l as [|[p t] l IH]; simpl; [done|].
  by rewrite IH, (pred_of_merged p t).
Qed.

(** The rows [main] writes, against the rows of the join. *)
Lemma written_rows (select : hyb_row → list (option string))
    (P : pred_row → list (option string) → Prop) preds raw df' :
  (∀ r r', m_qid r' = m_qid r → m_label r' = m_label r →
     P (pred_of r) (select r')) →
  Forall2 (fun r r' => m_qid r' = m_qid r ∧ m_label r' = m_label r)
          (merge_predictions_with_text preds raw) df' →
  Forall2 P (joined_rows preds raw) (map select df').
Proof.
  intros HP Hall. rewrite <- merge_joined_rows.
  induction Hall as [|r r' df df'' [Hq Hl] _ IH]; simpl; constructor; [|done].
  by apply HP.
Qed.

End Presence.


(** C9 (as amended).  The join keeps every row of the prediction table and
    their order, but it repeats a row once for each text row that has the
    row's key.  When [main] of either script returns, it has written the
    columns [qid], [label], [prediction], [source] (validation) or [qid],
    [prediction], [source] (test), and the written rows are, in order, the
    rows of the join, each with the [qid] and, for validation, the [label]
    of its prediction row.  So the table never has fewer rows than the
    prediction table, and has exactly one row for each prediction row, in
    the same order, exactly when no prediction's key occurs twice among the
    text rows. *)
Theorem C9_one_row_per_entity_in_order
    (a : args) (w : world) (preds : list pred_row) (rows : list raw_row)
    (clf : classifier) :
  files w !! input a = Some (PredsCsv preds) →
  files w !! raw a = Some (RawCsv rows) →
  files w !! model a = Some (ModelPkl clf) →
  let joined := joined_rows preds (load_raw_text rows) in
  (∀ w', main_validation a w = (Done tt, w') →
     ∃ out,
       files w' !! output a
       = Some (HybridCsv ["qid"; "label"; "prediction"; "source"] out)
       ∧ Forall2 (fun p o => ∃ pr s, o = [qid p; label p; pr; s]) joined out)
  ∧ (∀ w', main_test a w = (Done tt, w') →
       ∃ out,
         files w' !! output a
         = Some (HybridCsv ["qid"; "prediction"; "source"] out)
         ∧ Forall2 (fun p o => ∃ pr s, o = [qid p; pr; s]) joined out)
  ∧ (length preds ≤ length joined)%nat
  ∧ (length joined = length preds ↔ text_unique preds (load_raw_text rows))
  ∧ (text_unique preds (load_raw_text rows) → joined = preds).
Proof.
  intros Hp Hr Hm joined.
  assert (∀ columns select w',
            main_with columns select a w = (Done tt, w') →
            ∃ df',
              files w' !! output a = Some (HybridCsv columns (map select df'))
              ∧ Forall2 (fun r r' => m_qid r' = m_qid r ∧ m_label r' = m_label r)
                  (merge_predictions_with_text preds (load_raw_text rows)) df')
    as Hmain.
  { intros columns select w'.
    rewrite (main_with_run _ _ _ _ _ _ _ Hp Hr Hm). cbv zeta.
    destruct (apply_ml_fallback _ clf) as [events [df'| |]] eqn:Hfb;
      simpl; intros [= <-].
    exists df'. split; [simpl; apply lookup_insert_eq|].
    apply apply_ml_fallback_Done in Hfb as (labels & -> & _).
    apply fallback_frame_Forall2. }
  split_and!.
  - intros w' Hrun. apply Hmain in Hrun as (df' & Hfile & Hrows).
    eexists. split; [exact Hfile|].
    unfold joined. eapply written_rows; [|exact Hrows].
    intros r r' Hq Hl. exists (m_prediction r'), (m_source r').
    simpl. by rewrite Hq, Hl.
  - intros w' Hrun. apply Hmain in Hrun as (df' & Hfile & Hrows).
    eexists. split; [exact Hfile|].
    unfold joined. eapply written_rows; [|exact Hrows].
    intros r r' Hq Hl. exists (m_prediction r'), (m_source r').
    simpl. by rewrite Hq.
  - apply joined_rows_length.
  - split; [apply joined_rows_length|].
    intros Hu. unfold joined. by rewrite joined_rows_unique.
  - apply joined_rows_unique.
Qed.

(** ** The sample dataset *)

Lemma sample_run_rules : run_rules sample_ents ∅ ∅ sample_heritage = Done sample_preds.
Proof. vm_compute. reflexivity. Qed.

Lemma sample_merge :
  merge_predictions_with_text sample_preds (load_raw_text sample_raw) = sample_df.
Proof. vm_compute. reflexivity. Qed.

Lemma sample_fallback :
  apply_ml_fallback sample_df sample_model
  = ([Predicted ["Diwali festival"]], Done sample_final).
Proof. vm_compute. reflexivity. Qed.

Lemma sample_text_unique : text_unique sample_preds (load_raw_text sample_raw).
Proof.
  apply NoDup_text_unique.
  apply (bool_decide_unpack (NoDup (map t_qid (load_raw_text sample_raw)))).
  vm_compute. exact I.
Qed.


Lemma C3_missing_source_defaults_to_rule_witness :
  ∃ r', map fill_source sourceless_df !! 0%nat = Some r'
        ∧ m_source r' = Some RULE
        ∧ m_prediction r' = Some "Tangible".
Proof.
  assert (apply_ml_fallback sourceless_df failing_model
          = ([], Done (map fill_source sourceless_df))) as Hfb
    by (vm_compute; reflexivity).
  destruct (C3_missing_source_defaults_to_rule _ _ _ _ Hfb) as (Hdefault & _ & _).
  apply (Hdefault 0%nat (hd (HybRow None None None None None None "") sourceless_df)).
  - reflexivity.
  - intros (p & _ & _ & Htext). apply Htext. reflexivity.
  - reflexivity.
Defined.

(** C3 (as stated) fails: the row without a source leaves the fallback step
    with the source ['QID'], which is the tag [RULE] and no tag of its own,
    and no event reports the repair. *)
Lemma C3_counterexample :
  ∃ r',
    m_source (hd r' sourceless_df) = None
    ∧ apply_ml_fallback sourceless_df failing_model = ([], Done [r'])
    ∧ m_source r' = Some RULE.
Proof.
  eexists. split_and!; [| vm_compute; reflexivity |]; reflexivity.
Qed.

Lemma C7_no_output_when_classifier_raises_witness :
  (∃ w', main_validation sample_args (sample_world failing_model)
         = (Raised PredictError, w')
         ∧ files w' = files (sample_world failing_model))
  ∧ (∃ w', main_test sample_args (sample_world failing_model)
           = (Raised PredictError, w')
           ∧ files w' = files (sample_world failing_model)).
Proof.
  assert (files (sample_world failing_model) !! input sample_args
          = Some (PredsCsv sample_preds)) as Hp by (vm_compute; reflexivity).
  assert (files (sample_world failing_model) !! raw sample_args
          = Some (RawCsv sample_raw)) as Hr by (vm_compute; reflexivity).
  assert (files (sample_world failing_model) !! model sample_args
          = Some (ModelPkl failing_model)) as Hm by (vm_compute; reflexivity).
  destruct (C7_no_output_when_classifier_raises _ _ _ _ _ Hp Hr Hm) as [Hraise _].
  apply Hraise.
  - vm_compute. discriminate.
  - reflexivity.
Defined.



Lemma C9_one_row_per_entity_in_order_witness :
  ∃ out,
    files (main_validation sample_args (sample_world sample_model)).2
      !! output sample_args
    = Some (HybridCsv ["qid"; "label"; "prediction"; "source"] out)
    ∧ Forall2 (fun p o => ∃ pr s, o = [qid p; label p; pr; s]) sample_preds out.
Proof.
  assert (files (sample_world sample_model) !! input sample_args
          = Some (PredsCsv sample_preds)) as Hp by (vm_compute; reflexivity).
  assert (files (sample_world sample_model) !! raw sample_args
          = Some (RawCsv sample_raw)) as Hr by (vm_compute; reflexivity).
  assert (files (sample_world sample_model) !! model sample_args
          = Some (ModelPkl sample_model)) as Hm by (vm_compute; reflexivity).
  destruct (C9_one_row_per_entity_in_order _ _ _ _ _ Hp Hr Hm)
    as (Hval & _ & _ & _ & Hsame).
  rewrite (Hsame sample_text_unique) in Hval.
  apply Hval.
  destruct (main_validation sample_args (sample_world sample_model))
    as [res w'] eqn:Hrun.
  apply (f_equal fst) in Hrun. vm_compute in Hrun. by subst res.
Defined.

(** C9 (as stated) fails: with two rows for the item [Q2] in the raw
    dataset, the table of three prediction rows comes out with four rows,
    two of them for [Q2]. *)
Lemma C9_counterexample :
  length sample_preds = 3%nat
  ∧ (main_validation sample_args doubled_world).1 = Done tt
  ∧ files (main_validation sample_args doubled_world).2 !! output sample_args
    = Some (HybridCsv ["qid"; "label"; "prediction"; "source"]
              [ [Some "Q1"; None; Some "Tangible"; Some "QID"];
                [Some "Q2"; None; Some "Intangible"; Some "ML"];
                [Some "Q2"; None; Some "Intangible"; Some "ML"];
                [Some "Q3"; None; Some "Cultural Agnostic"; Some "Agnostic"] ]).
Proof. split_and!; vm_compute; reflexivity. Qed.

(** The written table of the sample run. *)
Example sample_output :
  files (main_validation sample_args (sample_world sample_model)).2
    !! "results/validation_fallback.csv"
  = Some (HybridCsv ["qid"; "label"; "prediction"; "source"]
            [ [Some "Q1"; None; Some "Tangible"; Some "QID"];
              [Some "Q2"; None; Some "Intangible"; Some "ML"];
              [Some "Q3"; None; Some "Cultural Agnostic"; Some "Agnostic"] ]).
Proof. vm_compute. reflexivity. Qed.

(** * Further properties of the code *)

(** ** The cascade *)

Section CascadeMore.

Implicit Types (table : gmap string string) (qids : list string).
Implicit Types (row : gmap string (list string)).

Lemma lookup_loop_lower table qids :
  lookup_loop table (map PyStr.lower qids) = lookup_loop table qids.
Proof.
  induction qids as [|qid qids IH]; simpl; [done|].
  by rewrite lower_idemp, IH.
Qed.

Lemma row_get_fmap (f : list string → list string) row field :
  f [] = [] → row_get (f <$> row) field = f (row_get row field).
Proof.
  intros Hf. unfold row_get. rewrite lookup_fmap.
  by destruct (row !! field).
Qed.

Lemma row_get_consulted row field :
  field ∈ ["heritage_status"; "part_of_culture"; "instance_of"] →
  row_get (consulted row) field = row_get row field.
Proof.
  intros Hin. unfold consulted.
  repeat (apply elem_of_cons in Hin as [-> | Hin]); [..| by apply elem_of_nil in Hin];
    unfold row_get at 1; by simplify_map_eq.
Qed.

Lemma classifier_consulted row instance_map culture_map heritage_map :
  rule_based_classifier row instance_map culture_map heritage_map
  = rule_based_classifier (consulted row) instance_map culture_map heritage_map.
Proof.
  unfold rule_based_classifier.
  rewrite !row_get_consulted; [done | ..];
    repeat first [by left | right].
Qed.

End CascadeMore.

(** X1.  The case of the identifiers in the relationship lists does not
    matter: the classifier gives the same result when every identifier of
    every list is replaced by its lower-case form. *)
Theorem classifier_ignores_identifier_case
    (row : gmap string (list string))
    (instance_map culture_map heritage_map : gmap string string) :
  rule_based_classifier (map PyStr.lower <$> row) instance_map culture_map heritage_map
  = rule_based_classifier row instance_map culture_map heritage_map.
Proof.
  unfold rule_based_classifier.
  rewrite !(row_get_fmap (map PyStr.lower)) by done.
  by rewrite !lookup_loop_lower.
Qed.

(** X2.  The classifier reads three fields of the row and nothing else: the
    result is the one for the row that holds just [heritage_status],
    [part_of_culture] and [instance_of], with the empty list for a field
    the row does not have. *)
Theorem classifier_reads_three_fields
    (row : gmap string (list string))
    (instance_map culture_map heritage_map : gmap string string) :
  rule_based_classifier row instance_map culture_map heritage_map
  = rule_based_classifier (consulted row) instance_map culture_map heritage_map.
Proof. apply classifier_consulted. Qed.

(** X3.  The classifier never invents a label.  Either no identifier of the
    three lists hits its table, and the result is ["Cultural Agnostic"]
    with the tag ['Agnostic']; or the tag is ['QID'] and the prediction is
    the label of the first hit in the first list that has one. *)
Theorem classifier_result_origin
    (row : gmap string (list string))
    (instance_map culture_map heritage_map : gmap string string) :
  let result := rule_based_classifier row instance_map culture_map heritage_map in
  let heritage := row_get row "heritage_status" in
  let culture := row_get row "part_of_culture" in
  let instance := row_get row "instance_of" in
  (result = ("Cultural Agnostic", "Agnostic")
   ∧ no_hit heritage_map heritage ∧ no_hit culture_map culture
   ∧ no_hit instance_map instance)
  ∨ (result.2 = "QID"
     ∧ (first_hit heritage_map heritage result.1
        ∨ (no_hit heritage_map heritage ∧ first_hit culture_map culture result.1)
        ∨ (no_hit heritage_map heritage ∧ no_hit culture_map culture
           ∧ first_hit instance_map instance result.1))).
Proof.
  cbv zeta. unfold rule_based_classifier.
  destruct (lookup_loop heritage_map _) as [l|] eqn:Hh.
  { right. split; [done|]. left. by apply lookup_loop_Some. }
  apply lookup_loop_None in Hh.
  destruct (lookup_loop culture_map _) as [l|] eqn:Hc.
  { right. split; [done|]. right. left. split; [done | by apply lookup_loop_Some]. }
  apply lookup_loop_None in Hc.
  destruct (lookup_loop instance_map _) as [l|] eqn:Hi.
  { right. split; [done|]. right. right. split_and!; [done.. | by apply lookup_loop_Some]. }
  apply lookup_loop_None in Hi. by left.
Qed.

(** ** The loaded tables *)

Lemma to_dict_snoc (rows : list (string * string)) key label :
  to_dict (rows ++ [(key, label)]) = <[key := label]> (to_dict rows).
Proof. unfold to_dict. by rewrite foldl_app. Qed.

(** X4.  When a [qid] occurs in several rows of a table file, the loaded
    table holds the label of the last of them: a key maps to a label
    exactly when some row has that key and label and no later row has the
    key. *)
Theorem to_dict_last_row_wins
    (rows : list (string * string)) (key label : string) :
  to_dict rows !! key = Some label
  ↔ ∃ before after,
      rows = (before ++ (key, label) :: after)%list ∧ key ∉ after.*1.
Proof.
  induction rows as [|[k v] rows IH] using rev_ind.
  - split; [done|]. intros (before & after & Heq & _). by destruct before.
  - rewrite to_dict_snoc. destruct (decide (k = key)) as [->|Hne].
    + rewrite lookup_insert_eq. split.
      * intros [= ->]. exists rows, []. split; [done | set_solver].
      * intros (before & after & Heq & Hnotin).
        destruct after as [|a after _] using rev_ind.
        -- apply app_inj_tail in Heq as [_ [= ->]]. done.
        -- rewrite app_comm_cons, app_assoc in Heq.
           apply app_inj_tail in Heq as [_ <-].
           exfalso. apply Hnotin. rewrite fmap_app. set_solver.
    + rewrite lookup_insert_ne by done. rewrite IH. split.
      * intros (before & after & -> & Hnotin).
        exists before, (after ++ [(k, v)])%list. split.
        -- by rewrite <- app_assoc.
        -- rewrite fmap_app. set_solver.
      * intros (before & after & Heq & Hnotin).
        destruct after as [|a after _] using rev_ind.
        -- apply app_inj_tail in Heq as [_ [= ? ?]]. done.
        -- rewrite app_comm_cons, app_assoc in Heq.
           apply app_inj_tail in Heq as [-> <-].
           exists before, after. split; [done|].
           rewrite fmap_app in Hnotin. set_solver.
Qed.

(** ** The rule runner *)

Section RunnerMore.

Implicit Types (df : list entity_row) (r : entity_row).
Implicit Types (rows : list (gmap string (list string))).

Lemma apply_each_Done {A B} (f : A → outcome B) (l : list A) ys :
  apply_each f l = Done ys ↔ Forall2 (fun x y => f x = Done y) l ys.
Proof.
  revert ys. induction l as [|x l IH]; intros ys; simpl.
  - split; [intros [= <-]; constructor | by intros ->%Forall2_nil_inv_l].
  - split.
    + destruct (f x) as [y| |] eqn:Hx; simpl; [|done..].
      destruct (apply_each f l) as [ys'| |] eqn:Hl; simpl; [|done..].
      intros [= <-]. constructor; [done | by apply IH].
    + intros (y & ys' & Hx & Hl & ->)%Forall2_cons_inv_l.
      rewrite Hx. simpl. apply IH in Hl. by rewrite Hl.
Qed.

(** The rows after the loop over [fields]: row [i] holds, for each of the
    fields, the list its cell in row [i] of the frame evaluates to, and is
    as before in every other field. *)
Lemma eval_columns_rows (fields : list string) df rows0 rows :
  length rows0 = length df →
  eval_columns fields df rows0 = Done rows →
  length rows = length df
  ∧ ∀ i r m, df !! i = Some r → rows !! i = Some m →
      (∀ field, field ∈ fields →
         ∃ ids, eval_field field r = Done ids ∧ m !! field = Some ids)
      ∧ (∀ field m0, field ∉ fields → rows0 !! i = Some m0 →
           m !! field = m0 !! field).
Proof.
  revert rows0. induction fields as [|f fields IH]; intros rows0 Hlen; simpl.
  - intros [= <-]. split; [done|]. intros i r m Hr Hm. split.
    + intros field Hin. by apply elem_of_nil in Hin.
    + intros field m0 _ Hm0. congruence.
  - unfold eval_column.
    destruct (apply_each (eval_field f) df) as [col| |] eqn:Hcol; simpl; [|done..].
    apply apply_each_Done in Hcol.
    pose proof (Forall2_length _ _ _ Hcol) as Hcollen.
    intros Hrows. apply IH in Hrows as [Hlen' Hrows];
      [|rewrite length_zip_with; lia].
    split; [done|]. intros i r m Hr Hm.
    destruct (Hrows i r m Hr Hm) as [Hin Hout].
    destruct (Forall2_lookup_l _ _ _ _ _ Hcol Hr) as (ids & Hids & Hf).
    destruct (lookup_lt_is_Some_2 rows0 i) as [m0 Hm0];
      [rewrite Hlen; by eapply lookup_lt_Some|].
    assert (zip_with (fun m ids => <[f := ids]> m) rows0 col !! i
            = Some (<[f := ids]> m0)) as Hzip.
    { rewrite lookup_zip_with, Hm0, Hids. done. }
    split.
    + intros field Hfield. apply elem_of_cons in Hfield as [-> | Hfield]; [|by apply Hin].
      destruct (decide (f ∈ fields)) as [Hf' | Hf']; [by apply Hin|].
      exists ids. split; [done|].
      rewrite (Hout f _ Hf' Hzip). apply lookup_insert_eq.
    + intros field m0' Hnotin Hm0'. rewrite Hm0 in Hm0'. injection Hm0' as <-.
      apply not_elem_of_cons in Hnotin as [Hne Hnotin].
      rewrite (Hout field _ Hnotin Hzip). by apply lookup_insert_ne.
Qed.


End RunnerMore.


Lemma run_rules_lists
    (df : list entity_row)
    (instance_map culture_map heritage_map : gmap string string)
    (preds : list pred_row) :
  run_rules df instance_map culture_map heritage_map = Done preds →
  Forall2
    (fun r p =>
       ∃ heritage culture instance,
         consulted_lists r heritage culture instance
         ∧ p = to_pred r
                 (rule_based_classifier
                    {[ "heritage_status" := heritage;
                       "part_of_culture" := culture;
                       "instance_of" := instance ]}
                    instance_map culture_map heritage_map))
    df preds.
Proof.
  intros Hrun.
  assert (classify_rows df instance_map culture_map heritage_map = Done preds)
    as Hcl by (by destruct df).
  clear Hrun. unfold classify_rows in Hcl.
  destruct (eval_columns list_fields df (replicate (length df) ∅))
    as [rows| |] eqn:Hrows; simpl in Hcl; [|done..].
  injection Hcl as <-.
  apply eval_columns_rows in Hrows as [Hlen Hrows]; [|by rewrite length_replicate].
  apply Forall2_same_length_lookup. split.
  - by rewrite length_zip_with, length_map, Hlen, Nat.min_id.
  - intros i r p Hr Hp.
    apply lookup_zip_with_Some in Hp as (r' & res & -> & Hr' & Hres).
    rewrite Hr in Hr'. injection Hr' as <-.
    rewrite lookup_map in Hres.
    destruct (rows !! i) as [m|] eqn:Hm; [|done]. injection Hres as <-.
    destruct (Hrows i r m Hr Hm) as [Hin _].
    destruct (Hin "heritage_status") as (h & Hh & Hmh);
      [repeat first [by left | right]|].
    destruct (Hin "part_of_culture") as (c & Hc & Hmc);
      [repeat first [by left | right]|].
    destruct (Hin "instance_of") as (n & Hn & Hmn);
      [repeat first [by left | right]|].
    exists h, c, n. split; [done|]. f_equal.
    rewrite (classifier_consulted m).
    unfold consulted, row_get. by rewrite Hmh, Hmc, Hmn.
Qed.

(** X6.  What the rule runner returns: one row for each input row, in
    order, with the input row's [qid] and [label], and with the title-cased
    prediction and the tag the classifier gives for the lists that the
    row's [heritage_status], [part_of_culture] and [instance_of] cells
    evaluate to.  The other three list columns have no part in it. *)
Theorem run_rules_classifies_evaluated_lists
    (df : list entity_row)
    (instance_map culture_map heritage_map : gmap string string)
    (preds : list pred_row) :
  run_rules df instance_map culture_map heritage_map = Done preds →
  Forall2
    (fun r p =>
       ∃ heritage culture instance,
         consulted_lists r heritage culture instance
         ∧ p = to_pred r
                 (rule_based_classifier
                    {[ "heritage_status" := heritage;
                       "part_of_culture" := culture;
                       "instance_of" := instance ]}
                    instance_map culture_map heritage_map))
    df preds.
Proof. apply run_rules_lists. Qed.

Lemma run_rules_classifies_evaluated_lists_witness :
  Forall2
    (fun r p =>
       ∃ heritage culture instance,
         consulted_lists r heritage culture instance
         ∧ p = to_pred r
                 (rule_based_classifier
                    {[ "heritage_status" := heritage;
                       "part_of_culture" := culture;
                       "instance_of" := instance ]}
                    ∅ ∅ sample_heritage))
    sample_ents sample_preds.
Proof.
  apply run_rules_classifies_evaluated_lists. vm_compute. reflexivity.
Defined.

(** ** Title case *)

Section TitleCase.

Lemma lower_upper_char c : PyStr.lower_char (PyStr.upper_char c) = PyStr.lower_char c.
Proof. destruct c as [[] [] [] [] [] [] [] []]; reflexivity. Qed.

Lemma lower_title_from b s : PyStr.lower (PyStr.title_from b s) = PyStr.lower s.
Proof.
  revert b. induction s as [|c s IH]; intros b; simpl; [done|].
  rewrite IH. by destruct b; rewrite ?lower_char_idemp, ?lower_upper_char.
Qed.

(** Title-casing does not change what a string is up to case. *)
Lemma lower_title s : PyStr.lower (PyStr.title s) = PyStr.lower s.
Proof. apply lower_title_from. Qed.

End TitleCase.

(** ** More on the fallback step *)

Section FallbackMore.

Implicit Types (df : list hyb_row) (r : hyb_row) (model : classifier).

Lemma in_mask_fill_source r : in_mask (fill_source r) = in_mask r.
Proof. done. Qed.

Lemma in_mask_null r : m_prediction r = None → in_mask r = false.
Proof. unfold in_mask. by intros ->. Qed.

Lemma fallback_texts_nil df : fallback_texts df = [] ↔ existsb in_mask df = false.
Proof.
  unfold fallback_texts. induction df as [|r df IH]; simpl; [done|].
  destruct (in_mask r); simpl; [split; done | exact IH].
Qed.

Lemma map_fill_source_id df :
  Forall (fun r => is_Some (m_source r)) df → map fill_source df = df.
Proof.
  induction 1 as [|r df [s Hs] _ IH]; simpl; [done|].
  by rewrite (fill_source_id r s Hs), IH.
Qed.

Lemma fill_source_is_Some df : Forall (fun r => is_Some (m_source r)) (map fill_source df).
Proof.
  apply Forall_forall. intros r Hin.
  apply list_elem_of_In, in_map_iff in Hin as (r0 & <- & _). by eexists.
Qed.

(** Without a masked row the step only fills the sources, whatever the
    model is. *)
Lemma apply_ml_fallback_no_mask df model :
  existsb in_mask df = false →
  apply_ml_fallback df model
  = (warning (map fill_source df), Done (map fill_source df)).
Proof.
  intros H. unfold apply_ml_fallback. by rewrite H, finish_eq.
Qed.

(** The frame after the step, row by row. *)
Lemma fallback_frame_fields df labels :
  Forall2 (fun r r' =>
             m_qid r' = m_qid r ∧ m_label r' = m_label r
             ∧ m_name r' = m_name r ∧ m_description r' = m_description r
             ∧ m_text r' = m_text r)
          df (map fill_source (overwrite df labels)).
Proof.
  revert labels. induction df as [|r df IH]; intros labels; simpl; [constructor|].
  destruct (in_mask r); [destruct labels as [|l labels]|]; simpl;
    constructor; (done || apply IH).
Qed.

End FallbackMore.

Lemma apply_ml_fallback_wrong_length
    (df : list hyb_row) (model : classifier) (labels : list (option string)) :
  fallback_texts df ≠ [] →
  model (fallback_texts df) = Some labels →
  length labels ≠ length (fallback_texts df) →
  apply_ml_fallback df model
  = ([Predicted (fallback_texts df)], Raised LengthError).
Proof.
  intros Hne Hmodel Hlen. unfold apply_ml_fallback. fold (fallback_texts df).
  rewrite (fallback_texts_any df Hne), Hmodel.
  apply Nat.eqb_neq in Hlen. by rewrite Hlen.
Qed.

(** X8.  When the classifier answers the batch of eligible texts with a
    number of labels that differs from the number of texts, the fallback
    step raises after that one call and returns no frame, and [main] of
    either script ends with that exception without writing a file. *)
Theorem fallback_rejects_wrong_length
    (columns : list string) (select : hyb_row → list (option string))
    (a : args) (w : world) (preds : list pred_row) (rows : list raw_row)
    (clf : classifier) (labels : list (option string)) :
  files w !! input a = Some (PredsCsv preds) →
  files w !! raw a = Some (RawCsv rows) →
  files w !! model a = Some (ModelPkl clf) →
  let df := merge_predictions_with_text preds (load_raw_text rows) in
  fallback_texts df ≠ [] →
  clf (fallback_texts df) = Some labels →
  length labels ≠ length (fallback_texts df) →
  apply_ml_fallback df clf = ([Predicted (fallback_texts df)], Raised LengthError)
  ∧ ∃ w', main_with columns select a w = (Raised LengthError, w')
          ∧ files w' = files w
          ∧ trace w' = (trace w ++ [Predicted (fallback_texts df)])%list.
Proof.
  intros Hp Hr Hm df Hne Hclf Hlen.
  pose proof (apply_ml_fallback_wrong_length df clf labels Hne Hclf Hlen) as Hfb.
  split; [done|].
  rewrite (main_with_run _ _ _ _ _ _ _ Hp Hr Hm). cbv zeta. fold df.
  rewrite Hfb. simpl. eauto.
Qed.

Lemma fallback_rejects_wrong_length_witness :
  apply_ml_fallback sample_df (fun _ => Some [])
  = ([Predicted ["Diwali festival"]], Raised LengthError)
  ∧ ∃ w', main_validation sample_args (sample_world (fun _ => Some []))
          = (Raised LengthError, w')
          ∧ files w' = files (sample_world (fun _ => Some []))
          ∧ trace w' = [Predicted ["Diwali festival"]].
Proof.
  apply (fallback_rejects_wrong_length _ _ sample_args (sample_world (fun _ => Some []))
           sample_preds sample_raw (fun _ => Some []) []).
  - vm_compute. reflexivity.
  - vm_compute. reflexivity.
  - vm_compute. reflexivity.
  - vm_compute. discriminate.
  - reflexivity.
  - vm_compute. discriminate.
Defined.

(** X9.  When no row is eligible, the fallback step never calls the
    classifier: it returns, whatever the classifier is, the input frame
    with the missing sources filled, and the only possible event is the
    warning. *)
Theorem fallback_without_eligible_rows
    (df : list hyb_row) (model : classifier) :
  (∀ r, r ∈ df → ¬ eligible r) →
  apply_ml_fallback df model
  = (warning (map fill_source df), Done (map fill_source df))
  ∧ ∀ texts, Predicted texts ∉ (apply_ml_fallback df model).1.
Proof.
  intros Hnone.
  assert (existsb in_mask df = false) as Hmask.
  { destruct (existsb in_mask df) eqn:H; [|done].
    apply existsb_exists in H as (r & Hr & Hm).
    apply in_mask_eligible in Hm. by destruct (Hnone r); [apply list_elem_of_In|]. }
  rewrite (apply_ml_fallback_no_mask df model Hmask). split; [done|].
  intros texts. simpl. unfold warning.
  destruct (length _); [apply not_elem_of_nil|].
  by intros ?%list_elem_of_singleton.
Qed.

Lemma fallback_without_eligible_rows_witness :
  apply_ml_fallback sourceless_df failing_model
  = (warning (map fill_source sourceless_df), Done (map fill_source sourceless_df)).
Proof.
  apply (fallback_without_eligible_rows sourceless_df failing_model).
  intros r Hr (p & _ & _ & Htext).
  apply list_elem_of_singleton in Hr as ->. by apply Htext.
Defined.

(** X10.  The fallback step keeps the frame's shape: it returns as many
    rows as it gets, and row by row the [qid], the [label], the [name],
    the [description] and the [text] are the input's; only [prediction]
    and [source] can change. *)
Theorem fallback_keeps_rows
    (df : list hyb_row) (model : classifier)
    (events : list event) (df' : list hyb_row) :
  apply_ml_fallback df model = (events, Done df') →
  Forall2 (fun r r' =>
             m_qid r' = m_qid r ∧ m_label r' = m_label r
             ∧ m_name r' = m_name r ∧ m_description r' = m_description r
             ∧ m_text r' = m_text r)
          df df'.
Proof.
  intros H. apply apply_ml_fallback_Done in H as (labels & -> & _).
  apply fallback_frame_fields.
Qed.

Lemma fallback_keeps_rows_witness :
  Forall2 (fun r r' =>
             m_qid r' = m_qid r ∧ m_label r' = m_label r
             ∧ m_name r' = m_name r ∧ m_description r' = m_description r
             ∧ m_text r' = m_text r)
          sample_df sample_final.
Proof.
  apply (fallback_keeps_rows sample_df sample_model [Predicted ["Diwali festival"]]).
  vm_compute. reflexivity.
Defined.

Section FallbackAgain.

Implicit Types (df : list hyb_row) (r : hyb_row) (model : classifier).

(** A property of the frame after the step, from the rows outside the mask
    and the overwritten rows, when there is a label for every masked
    row. *)
Lemma fallback_frame_Forall_mask (P : hyb_row → Prop) df labels :
  (length (List.filter in_mask df) ≤ length labels)%nat →
  (∀ r, r ∈ df → in_mask r = false → P (fill_source r)) →
  (∀ r l, r ∈ df → in_mask r = true → l ∈ labels →
     P (fill_source (with_fallback r l))) →
  Forall P (map fill_source (overwrite df labels)).
Proof.
  revert labels. induction df as [|r df IH]; intros labels Hlen Hkeep Hnew; simpl;
    [constructor|].
  simpl in Hlen. destruct (in_mask r) eqn:Hm.
  - destruct labels as [|l labels]; simpl in Hlen; [lia|]. simpl. constructor.
    + apply Hnew; [by left | done | by left].
    + apply IH; [lia | |].
      * intros r' Hr'. apply Hkeep. by right.
      * intros r' l' Hr' Hm' Hl'. apply Hnew; [by right | done | by right].
  - simpl. constructor.
    + apply Hkeep; [by left | done].
    + apply IH; [done | |].
      * intros r' Hr'. apply Hkeep. by right.
      * intros r' l' Hr' Hm' Hl'. apply Hnew; [by right | done..].
Qed.

Lemma filter_in_mask_nil df : existsb in_mask df = false → List.filter in_mask df = [].
Proof.
  induction df as [|r df IH]; simpl; [done|].
  destruct (in_mask r); simpl; [done | exact IH].
Qed.

Lemma existsb_in_mask_Forall df :
  Forall (fun r => in_mask r = false) df → existsb in_mask df = false.
Proof. induction 1 as [|r df Hr _ IH]; simpl; [done|]. by rewrite Hr, IH. Qed.

End FallbackAgain.

(** X11.  Running the fallback step again on its own result changes
    nothing and calls no classifier, provided the labels the classifier
    returned in the first run are not ["Cultural Agnostic"] up to case: the
    overwritten rows are no longer eligible, and the other rows never
    were. *)
Theorem fallback_twice_is_once
    (df : list hyb_row) (model again : classifier)
    (events : list event) (df1 : list hyb_row) :
  apply_ml_fallback df model = (events, Done df1) →
  (∀ labels, model (fallback_texts df) = Some labels →
     Forall (fun l => ∀ s, l = Some s → PyStr.lower s ≠ PyStr.lower AGNOSTIC) labels) →
  apply_ml_fallback df1 again = (warning df1, Done df1).
Proof.
  intros Hfb Hlabels. apply apply_ml_fallback_Done in Hfb as (labels & -> & Hev).
  set (df1 := map fill_source (overwrite df labels)).
  assert (Forall (fun r => in_mask r = false) df1) as Hmask.
  { apply fallback_frame_Forall_mask.
    - destruct Hev as [(_ & _ & Hlen & _) | (Hnone & _)].
      + rewrite Hlen. unfold fallback_texts. by rewrite length_map.
      + rewrite (filter_in_mask_nil df Hnone). simpl. lia.
    - intros r _ Hr. by rewrite in_mask_fill_source.
    - intros r l _ _ Hl. rewrite in_mask_fill_source.
      destruct Hev as [(_ & Hmodel & _) | (_ & -> & _)];
        [|by apply elem_of_nil in Hl].
      specialize (Hlabels labels Hmodel). rewrite Forall_forall in Hlabels.
      specialize (Hlabels l Hl). unfold in_mask. simpl.
      destruct l as [s|]; simpl; [|done].
      rewrite lower_title.
      destruct (String.eqb_spec (PyStr.lower s) "cultural agnostic") as [Heq|]; [|done].
      by destruct (Hlabels s). }
  rewrite (apply_ml_fallback_no_mask df1 again (existsb_in_mask_Forall df1 Hmask)).
  by rewrite (map_fill_source_id df1 (fill_source_is_Some _)).
Qed.

Lemma fallback_twice_is_once_witness :
  apply_ml_fallback sample_final failing_model = (warning sample_final, Done sample_final).
Proof.
  apply (fallback_twice_is_once sample_df sample_model failing_model
           [Predicted ["Diwali festival"]]).
  - vm_compute. reflexivity.
  - intros labels [= <-]. vm_compute. repeat constructor; intros s [= <-]; discriminate.
Defined.

(** X12.  A row whose prediction is missing is never eligible: it leaves
    the fallback step with its prediction still missing, and the step
    prints the warning, which counts all such rows of the result. *)
Theorem fallback_keeps_missing_predictions
    (df : list hyb_row) (model : classifier)
    (events : list event) (df' : list hyb_row) (i : nat) (r : hyb_row) :
  apply_ml_fallback df model = (events, Done df') →
  df !! i = Some r →
  m_prediction r = None →
  (∃ r', df' !! i = Some r' ∧ m_prediction r' = None)
  ∧ Warned (length (List.filter is_na df')) ∈ events
  ∧ (0 < length (List.filter is_na df'))%nat.
Proof.
  intros Hfb Hi Hnull. apply apply_ml_fallback_Done in Hfb as (labels & -> & Hev).
  set (out := map fill_source (overwrite df labels)) in *.
  assert (out !! i = Some (fill_source r)) as Hout.
  { unfold out. by rewrite lookup_map, (overwrite_lookup _ _ _ _ Hi), (in_mask_null r Hnull). }
  assert (0 < length (List.filter is_na out))%nat as Hpos.
  { assert (In (fill_source r) (List.filter is_na out)) as Hin.
    { apply filter_In. split.
      - apply list_elem_of_In. by eapply list_elem_of_lookup_2.
      - unfold is_na. simpl. by rewrite Hnull. }
    destruct (List.filter is_na out); [done | simpl; lia]. }
  split_and!; [by exists (fill_source r) | | done].
  assert (Warned (length (List.filter is_na out)) ∈ warning out) as Hw.
  { unfold warning. destruct (length (List.filter is_na out)); [lia | by left]. }
  destruct Hev as [(_ & _ & _ & ->) | (_ & _ & ->)]; [by right | done].
Qed.

Lemma fallback_keeps_missing_predictions_witness :
  let r := {| m_qid := Some "Q9"; m_label := None; m_prediction := None;
              m_source := None; m_name := Some "Holi"; m_description := None;
              m_text := "Holi" |} in
  (∃ r', [fill_source r] !! 0%nat = Some r' ∧ m_prediction r' = None)
  ∧ Warned (length (List.filter is_na [fill_source r])) ∈ [Warned 1]
  ∧ (0 < length (List.filter is_na [fill_source r]))%nat.
Proof.
  intros r.
  apply (fallback_keeps_missing_predictions [r] sample_model [Warned 1]
           [fill_source r] 0%nat r); reflexivity.
Defined.

(** ** The join with the texts *)

Section MergeMore.

Implicit Types (preds : list pred_row) (raw : list text_row) (p : pred_row).

Lemma all_space_app a b : all_space (a +:+ b) = all_space a && all_space b.
Proof. induction a as [|c a IH]; simpl; [done|]. by rewrite IH, andb_assoc. Qed.

Lemma all_space_lstrip s : all_space (PyStr.lstrip s) = all_space s.
Proof.
  induction s as [|c s IH]; simpl; [done|].
  destruct (PyStr.is_space c) eqn:Hc; simpl; [done | by rewrite Hc].
Qed.

Lemma rstrip_empty s : PyStr.rstrip s = "" ↔ all_space s = true.
Proof.
  induction s as [|c s IH]; simpl; [done|].
  rewrite andb_true_iff, <- IH.
  destruct (PyStr.rstrip s); destruct (PyStr.is_space c); split;
    (done || by intros [? ?]).
Qed.

(** Trimming leaves nothing exactly when there is white space only. *)
Lemma strip_empty s : PyStr.strip s = "" ↔ all_space s = true.
Proof. unfold PyStr.strip. by rewrite rstrip_empty, all_space_lstrip. Qed.

Lemma without_text_merged preds raw p :
  p ∈ preds → text_matches p raw = 0%nat →
  without_text p ∈ merge_predictions_with_text preds raw.
Proof.
  intros Hp Hnone. unfold merge_predictions_with_text.
  apply list_elem_of_In, in_map_iff. exists (p, None). split; [done|].
  unfold left_merge. apply in_flat_map. exists p. split; [by apply list_elem_of_In|].
  unfold text_matches in Hnone.
  destruct (List.filter _ raw); [by left | done].
Qed.

End MergeMore.

(** X13.  The left join keeps every prediction row, in order: a row
    appears once for each text row that has its key, and once when there is
    none.  So the merged frame is never shorter than the prediction table,
    and is longer exactly when some key has several text rows. *)
Theorem merge_repeats_rows_per_match
    (preds : list pred_row) (raw : list text_row) :
  map pred_of (merge_predictions_with_text preds raw)
  = flat_map (fun p => replicate (Nat.max 1 (text_matches p raw)) p) preds.
Proof.
  rewrite <- left_merge_fst_repeat. unfold merge_predictions_with_text.
  generalize (left_merge preds raw). intros l.
  induction l as [|[p t] l IH]; simpl; [done|].
  by rewrite IH, (pred_of_merged p t).
Qed.

(** X14.  A prediction row without a text row goes through the join and
    the fallback step untouched, apart from a missing source being filled:
    its text is empty, so it is never handed to the classifier. *)
Theorem unmatched_row_is_carried_through
    (preds : list pred_row) (raw : list text_row) (p : pred_row)
    (model : classifier) (events : list event) (df' : list hyb_row) :
  p ∈ preds →
  text_matches p raw = 0%nat →
  apply_ml_fallback (merge_predictions_with_text preds raw) model
  = (events, Done df') →
  fill_source (without_text p) ∈ df'
  ∧ ∀ texts t, Predicted texts ∈ events → t ∈ texts → t ≠ "".
Proof.
  intros Hp Hnone Hfb. split.
  - apply apply_ml_fallback_Done in Hfb as (labels & -> & _).
    pose proof (without_text_merged preds raw p Hp Hnone) as Hin.
    apply list_elem_of_lookup in Hin as [i Hi].
    apply list_elem_of_lookup. exists i.
    assert (in_mask (without_text p) = false) as Hm
      by (unfold in_mask; simpl; apply andb_false_r).
    by rewrite lookup_map, (overwrite_lookup _ _ _ _ Hi), Hm.
  - intros texts t Hin Ht.
    apply apply_ml_fallback_Done in Hfb as (labels & _ & Hev).
    assert (texts = fallback_texts (merge_predictions_with_text preds raw)) as ->.
    { destruct Hev as [(_ & _ & _ & ->) | (_ & _ & ->)].
      - apply elem_of_cons in Hin as [[= ->] | Hin]; [done|].
        unfold warning in Hin. destruct (length _) in Hin;
          [by apply elem_of_nil in Hin | by apply list_elem_of_singleton in Hin].
      - unfold warning in Hin. destruct (length _) in Hin;
          [by apply elem_of_nil in Hin | by apply list_elem_of_singleton in Hin]. }
    apply list_elem_of_In, in_map_iff in Ht as (r & <- & Hr).
    apply filter_In in Hr as [_ Hm]. apply in_mask_eligible in Hm.
    by destruct Hm as (_ & _ & _ & ?).
Qed.

Lemma unmatched_row_is_carried_through_witness :
  let p := {| qid := Some "q7"; label := None;
              prediction := Some "Cultural Agnostic"; source := Some "Agnostic" |} in
  fill_source (without_text p) ∈ [fill_source (without_text p)]
  ∧ ∀ texts t, Predicted texts ∈ [] → t ∈ texts → t ≠ "".
Proof.
  intros p.
  apply (unmatched_row_is_carried_through [p] (load_raw_text sample_raw) p sample_model).
  - by left.
  - vm_compute. reflexivity.
  - vm_compute. reflexivity.
Defined.

(** X15.  With names and descriptions that are ASCII texts, the text of a
    merged row is empty exactly when the name and the description, a
    missing one taken as empty, hold white space only; a row with an empty
    text is not eligible for the fallback, whatever its prediction. *)
Theorem merged_text_empty_iff_blank
    (preds : list pred_row) (raw : list text_row) :
  Forall (fun t => is_ascii (default "" (t_name t)) = true
                   ∧ is_ascii (default "" (t_description t)) = true) raw →
  Forall (fun r =>
            (m_text r = ""
             ↔ all_space (default "" (m_name r)) = true
               ∧ all_space (default "" (m_description r)) = true)
            ∧ (m_text r = "" → in_mask r = false))
         (merge_predictions_with_text preds raw).
Proof.
  intros _. apply Forall_forall. intros r Hr.
  apply merge_rows in Hr as (_ & _ & _ & _ & _ & _ & Htext). split.
  - rewrite Htext. unfold joined_text.
    rewrite strip_empty, !all_space_app, !andb_true_iff. simpl. tauto.
  - intros Hempty. unfold in_mask. rewrite Hempty. simpl. apply andb_false_r.
Qed.

Lemma merged_text_empty_iff_blank_witness :
  Forall (fun r =>
            (m_text r = ""
             ↔ all_space (default "" (m_name r)) = true
               ∧ all_space (default "" (m_description r)) = true)
            ∧ (m_text r = "" → in_mask r = false))
         (merge_predictions_with_text sample_preds
            [ {| t_qid := Some "Q1"; t_name := Some "Taj Mahal";
                 t_description := Some "mausoleum" |};
              {| t_qid := Some "Q2"; t_name := Some "  ";
                 t_description := None |} ]).
Proof.
  apply merged_text_empty_iff_blank.
  repeat (constructor; [split; reflexivity|]). constructor.
Defined.

(** ** The identifier of a raw row *)

Section ExtractMore.

Lemma digits_all_digits s : all_digits (digits s) = true.
Proof.
  induction s as [|c s IH]; simpl; [done|].
  destruct (is_digit c) eqn:Hc; simpl; [by rewrite Hc | done].
Qed.

Lemma digits_of_all_digits s : all_digits s = true → digits s = s.
Proof.
  induction s as [|c s IH]; simpl; [done|].
  intros [Hc Hs]%andb_true_iff. by rewrite Hc, IH.
Qed.

(** The string is its leading digits followed by a rest that does not
    start with a digit. *)
Lemma digits_split s :
  ∃ rest, s = digits s +:+ rest
          ∧ match rest with
            | EmptyString => True
            | String c _ => is_digit c = false
            end.
Proof.
  induction s as [|c s (rest & IH & Hrest)]; simpl.
  - by exists "".
  - destruct (is_digit c) eqn:Hc.
    + exists rest. split; [|done]. rewrite IH at 1. reflexivity.
    + by exists (String c s).
Qed.

Lemma digits_empty_prefix pre rest :
  digits (pre +:+ String "Q" rest) = "" → digits pre = "".
Proof.
  destruct pre as [|c pre]; simpl; [done|].
  by destruct (is_digit c).
Qed.

Lemma extract_qid_Q ds :
  ds ≠ "" → all_digits ds = true → extract_qid (String "Q" ds) = Some (String "Q" ds).
Proof.
  intros Hne Hall. simpl. rewrite (digits_of_all_digits ds Hall).
  by destruct ds.
Qed.

(** A result is [Q] and digits, found at the leftmost place of the string
    where [Q] is followed by a digit, with all the digits that follow. *)
Lemma extract_qid_Some s q :
  extract_qid s = Some q →
  ∃ pre ds post,
    s = pre +:+ String "Q" ds +:+ post
    ∧ q = String "Q" ds
    ∧ ds ≠ "" ∧ all_digits ds = true
    ∧ match post with
      | EmptyString => True
      | String c _ => is_digit c = false
      end
    ∧ extract_qid pre = None.
Proof.
  induction s as [|c s IH]; simpl; [done|].
  change (ascii_of_nat 81) with "Q"%char.
  destruct (Ascii.eqb_spec c "Q"%char) as [->|Hc].
  - destruct (digits s) as [|d ds] eqn:Hds.
    + intros Hq. destruct (IH Hq) as (pre & ds & post & -> & -> & Hne & Hall & Hpost & Hpre).
      exists (String "Q" pre), ds, post. split_and!; try done.
      simpl. by rewrite (digits_empty_prefix _ _ Hds).
    + intros [= <-]. destruct (digits_split s) as (rest & Hs & Hrest).
      exists "", (String d ds), rest. rewrite Hds in Hs.
      split_and!; try done.
      * simpl. by rewrite Hs.
      * rewrite <- Hds. apply digits_all_digits.
  - intros Hq. destruct (IH Hq) as (pre & ds & post & -> & -> & Hne & Hall & Hpost & Hpre).
    exists (String c pre), ds, post. split_and!; try done.
    simpl. change (ascii_of_nat 81) with "Q"%char.
    destruct (Ascii.eqb_spec c "Q"%char); done.
Qed.

Lemma extract_qid_None s pre d post :
  extract_qid s = None →
  s = pre +:+ String "Q" (String d post) →
  is_digit d = false.
Proof.
  revert pre. induction s as [|c s IH]; intros pre; simpl.
  - intros _ Hs. by destruct pre.
  - destruct pre as [|c' pre]; simpl; intros Hnone [= -> ->].
    + simpl in Hnone. destruct (is_digit d); [done | done].
    + change (ascii_of_nat 81) with "Q"%char in Hnone.
      destruct (Ascii.eqb c' "Q"%char);
        [destruct (digits _); [|done] |]; by eapply IH.
Qed.

End ExtractMore.

(** X16.  The identifier [load_raw_text] extracts from an item that is an
    ASCII text is [Q] followed by one or more digits; it stands in the item
    at the leftmost place where [Q] is followed by a digit, and takes all
    the digits that follow there. *)
Theorem extract_qid_is_leftmost_q_number (s q : string) :
  is_ascii s = true →
  extract_qid s = Some q →
  ∃ pre ds post,
    s = pre +:+ String "Q" ds +:+ post
    ∧ q = String "Q" ds
    ∧ ds ≠ "" ∧ all_digits ds = true
    ∧ match post with
      | EmptyString => True
      | String c _ => is_digit c = false
      end
    ∧ extract_qid pre = None.
Proof. intros _. apply extract_qid_Some. Qed.

Lemma extract_qid_is_leftmost_q_number_witness :
  ∃ pre ds post,
    "see Q7x, then Q42" = pre +:+ String "Q" ds +:+ post
    ∧ "Q7" = String "Q" ds
    ∧ ds ≠ "" ∧ all_digits ds = true
    ∧ match post with
      | EmptyString => True
      | String c _ => is_digit c = false
      end
    ∧ extract_qid pre = None.
Proof.
  apply (extract_qid_is_leftmost_q_number "see Q7x, then Q42" "Q7"); reflexivity.
Defined.

(** X17.  [load_raw_text] finds no identifier in an item that is an ASCII
    text exactly when the item has no [Q] that is followed by a digit; the
    key of the row is then missing. *)
Theorem extract_qid_none_iff (s : string) :
  is_ascii s = true →
  (extract_qid s = None
   ↔ ¬ ∃ pre d post, s = pre +:+ String "Q" (String d post) ∧ is_digit d = true).
Proof.
  intros _. split.
  - intros Hnone (pre & d & post & Hs & Hd).
    rewrite (extract_qid_None s pre d post Hnone Hs) in Hd. done.
  - intros Hno. destruct (extract_qid s) as [q|] eqn:Hq; [|done].
    exfalso. apply Hno.
    apply extract_qid_Some in Hq as (pre & ds & post & -> & _ & Hne & Hall & _).
    destruct ds as [|d ds]; [done|]. simpl in Hall.
    apply andb_true_iff in Hall as [Hd _].
    exists pre, d, (ds +:+ post). by split.
Qed.

Lemma extract_qid_none_iff_witness :
  extract_qid "Quebec, Q-7" = None
  ↔ ¬ ∃ pre d post,
        "Quebec, Q-7" = pre +:+ String "Q" (String d post) ∧ is_digit d = true.
Proof. apply (extract_qid_none_iff "Quebec, Q-7"). reflexivity. Defined.

Lemma extract_qid_fixed (s q : string) :
  extract_qid s = Some q → extract_qid q = Some q.
Proof.
  intros Hq. apply extract_qid_Some in Hq as (_ & ds & _ & _ & -> & Hne & Hall & _).
  by apply extract_qid_Q.
Qed.

(** X18.  An extracted identifier is kept as it is when it is extracted
    from again: an item that is a bare Q-number is its own key. *)
Theorem extract_qid_idempotent (s q : string) :
  extract_qid s = Some q → extract_qid q = Some q.
Proof. apply extract_qid_fixed. Qed.

Lemma extract_qid_idempotent_witness : extract_qid "Q42" = Some "Q42".
Proof.
  apply (extract_qid_idempotent "http://www.wikidata.org/entity/Q42"). reflexivity.
Defined.

(** X19.  A prediction row whose [qid] is not a bare Q-number (for one, an
    identifier in lower case) has no text row in any raw dataset whose
    items are ASCII texts: the keys [load_raw_text] makes of them are all
    bare Q-numbers. *)
Theorem non_q_number_has_no_text
    (rows : list raw_row) (p : pred_row) (key : string) :
  Forall (fun r => is_ascii (default "" (item r)) = true) rows →
  qid p = Some key →
  extract_qid key ≠ Some key →
  text_matches p (load_raw_text rows) = 0%nat.
Proof.
  intros _ Hkey Hnot. unfold text_matches. rewrite Hkey.
  induction rows as [|r rows IH]; simpl; [done|].
  destruct (same_key _ _) eqn:Hsame; [|exact IH].
  exfalso. apply bool_decide_eq_true in Hsame.
  destruct (item r) as [it|]; simpl in Hsame; [|done].
  symmetry in Hsame. apply Hnot. by apply (extract_qid_fixed it).
Qed.

Lemma non_q_number_has_no_text_witness :
  text_matches {| qid := Some "q1"; label := None; prediction := None; source := None |}
    (load_raw_text sample_raw) = 0%nat.
Proof.
  apply (non_q_number_has_no_text sample_raw _ "q1");
    [repeat (constructor; [reflexivity|]); constructor | reflexivity |].
  vm_compute. discriminate.
Defined.

(** ** More on [main] *)

Section MainMore.

Implicit Types (a : args) (w : world) (clf : classifier).

(** A run that returns has read its three files and has got a frame from
    the fallback step; its world is the old one with the output written and
    the events appended. *)
Lemma main_with_Done columns select a w w' :
  main_with columns select a w = (Done tt, w') →
  ∃ preds rows clf events df',
    files w !! input a = Some (PredsCsv preds)
    ∧ files w !! raw a = Some (RawCsv rows)
    ∧ files w !! model a = Some (ModelPkl clf)
    ∧ apply_ml_fallback (merge_predictions_with_text preds (load_raw_text rows)) clf
      = (events, Done df')
    ∧ w' = {| files := <[output a := HybridCsv columns (map select df')]> (files w);
              trace := (trace w ++ events) ++ [Saved (output a)] |}.
Proof.
  intros Hrun.
  destruct (files w !! input a) as [[preds| | |]|] eqn:Hp;
    try (unfold main_with, io_bind, read_preds in Hrun; rewrite Hp in Hrun; done).
  destruct (files w !! raw a) as [[|rows| |]|] eqn:Hr;
    try (unfold main_with, io_bind, read_preds, read_raw in Hrun;
         rewrite Hp in Hrun; simpl in Hrun; rewrite Hr in Hrun; done).
  destruct (files w !! model a) as [[| |clf|]|] eqn:Hm;
    try (unfold main_with, io_bind, read_preds, read_raw, load_model in Hrun;
         rewrite Hp in Hrun; simpl in Hrun; rewrite Hr in Hrun; simpl in Hrun;
         rewrite Hm in Hrun; done).
  rewrite (main_with_run _ _ _ _ _ _ _ Hp Hr Hm) in Hrun. cbv zeta in Hrun.
  destruct (apply_ml_fallback _ clf) as [events [df'| |]] eqn:Hfb;
    simpl in Hrun; [|done..].
  injection Hrun as <-. by exists preds, rows, clf, events, df'.
Qed.

(** A run that does not return leaves the files as they are. *)
Lemma main_with_not_Done columns select a w res w' :
  main_with columns select a w = (res, w') → res ≠ Done tt → files w' = files w.
Proof.
  intros Hrun Hres.
  destruct (files w !! input a) as [[preds| | |]|] eqn:Hp;
    try (unfold main_with, io_bind, read_preds in Hrun; rewrite Hp in Hrun;
         by injection Hrun as <- <-).
  destruct (files w !! raw a) as [[|rows| |]|] eqn:Hr;
    try (unfold main_with, io_bind, read_preds, read_raw in Hrun;
         rewrite Hp in Hrun; simpl in Hrun; rewrite Hr in Hrun;
         by injection Hrun as <- <-).
  destruct (files w !! model a) as [[| |clf|]|] eqn:Hm;
    try (unfold main_with, io_bind, read_preds, read_raw, load_model in Hrun;
         rewrite Hp in Hrun; simpl in Hrun; rewrite Hr in Hrun; simpl in Hrun;
         rewrite Hm in Hrun; by injection Hrun as <- <-).
  rewrite (main_with_run _ _ _ _ _ _ _ Hp Hr Hm) in Hrun. cbv zeta in Hrun.
  destruct (apply_ml_fallback _ clf) as [events [df'| |]] eqn:Hfb;
    simpl in Hrun; injection Hrun as <- <-; [by destruct Hres | done..].
Qed.

End MainMore.

(** X21.  [main] of either fallback script changes a table file only by
    writing its output, and only when it returns: whenever it ends with an
    exception, every table and model file is as before.  When it returns,
    it has read the three files, the output path holds the columns it
    selects of the very frame that the fallback step returned for the
    merged tables, every other path holds what it held, and the events are
    those of the fallback step followed by the closing message with the
    output path. *)
Theorem main_writes_only_the_output
    (columns : list string) (select : hyb_row → list (option string))
    (a : args) (w : world) (res : outcome unit) (w' : world) :
  main_with columns select a w = (res, w') →
  (res ≠ Done tt → files w' = files w)
  ∧ (res = Done tt →
     ∃ preds rows clf events df',
       files w !! input a = Some (PredsCsv preds)
       ∧ files w !! raw a = Some (RawCsv rows)
       ∧ files w !! model a = Some (ModelPkl clf)
       ∧ apply_ml_fallback
           (merge_predictions_with_text preds (load_raw_text rows)) clf
         = (events, Done df')
       ∧ files w' !! output a = Some (HybridCsv columns (map select df'))
       ∧ (∀ path, path ≠ output a → files w' !! path = files w !! path)
       ∧ trace w' = (trace w ++ events ++ [Saved (output a)])%list).
Proof.
  intros Hrun. split.
  - by apply (main_with_not_Done columns select a w res w').
  - intros ->. apply main_with_Done in Hrun
      as (preds & rows & clf & events & df' & Hp & Hr & Hm & Hfb & ->). simpl.
    exists preds, rows, clf, events, df'. split_and!; [done..| | |].
    + apply lookup_insert_eq.
    + intros path Hne. by apply lookup_insert_ne.
    + by rewrite <- app_assoc.
Qed.

Lemma main_writes_only_the_output_witness :
  files (main_validation sample_args (sample_world sample_model)).2
    !! input sample_args
  = files (sample_world sample_model) !! input sample_args
  ∧ ∃ events df',
      apply_ml_fallback
        (merge_predictions_with_text sample_preds (load_raw_text sample_raw))
        sample_model
      = (events, Done df')
      ∧ files (main_validation sample_args (sample_world sample_model)).2
          !! output sample_args
        = Some (HybridCsv ["qid"; "label"; "prediction"; "source"]
                  (map (fun r => [m_qid r; m_label r; m_prediction r; m_source r])
                       df')).
Proof.
  destruct (main_validation sample_args (sample_world sample_model)) as [res w'] eqn:Hrun.
  assert (res = Done tt) as Hres.
  { apply (f_equal fst) in Hrun. vm_compute in Hrun. by symmetry. }
  destruct (main_writes_only_the_output _ _ _ _ _ _ Hrun) as [_ Hdone].
  destruct (Hdone Hres)
    as (preds & rows & clf & events & df' & Hp & Hr & Hm & Hfb & Hout & Hother & _).
  split; [apply Hother; discriminate|].
  assert (preds = sample_preds) as -> by (vm_compute in Hp; by injection Hp as <-).
  assert (rows = sample_raw) as -> by (vm_compute in Hr; by injection Hr as <-).
  assert (clf = sample_model) as -> by (vm_compute in Hm; by injection Hm as <-).
  exists events, df'. split; [exact Hfb | exact Hout].
Defined.

(** X22.  The two scripts differ in the columns they write.  On the same
    files, when the validation script returns, the test script returns as
    well, and the table it writes is the validation table without the
    [label] column. *)
Theorem main_test_is_validation_without_label
    (a : args) (w w1 : world) :
  main_validation a w = (Done tt, w1) →
  ∃ w2 rows,
    main_test a w = (Done tt, w2)
    ∧ files w1 !! output a
      = Some (HybridCsv ["qid"; "label"; "prediction"; "source"] rows)
    ∧ files w2 !! output a
      = Some (HybridCsv ["qid"; "prediction"; "source"] (map drop_label rows)).
Proof.
  intros Hrun. apply main_with_Done in Hrun
    as (preds & rows & clf & events & df' & Hp & Hr & Hm & Hfb & ->).
  eexists _, _. split_and!.
  - unfold main_test. rewrite (main_with_run _ _ _ _ _ _ _ Hp Hr Hm). cbv zeta.
    rewrite Hfb. simpl. reflexivity.
  - simpl. apply lookup_insert_eq.
  - simpl. rewrite lookup_insert_eq. do 2 f_equal.
    rewrite map_map. done.
Qed.

Lemma main_test_is_validation_without_label_witness :
  ∃ w2 rows,
    main_test sample_args (sample_world sample_model) = (Done tt, w2)
    ∧ files (main_validation sample_args (sample_world sample_model)).2
        !! output sample_args
      = Some (HybridCsv ["qid"; "label"; "prediction"; "source"] rows)
    ∧ files w2 !! output sample_args
      = Some (HybridCsv ["qid"; "prediction"; "source"] (map drop_label rows)).
Proof.
  apply (main_test_is_validation_without_label sample_args (sample_world sample_model)).
  vm_compute. reflexivity.
Defined.

(** * Enrichment *)

Example entry_with_id :
  entry_id (JObj [("mainsnak",
              JObj [("snaktype", JStr "value");
                    ("datavalue",
                     JObj [("value", JObj [("entity-type", JStr "item");
                                           ("id", JStr "Q6581097")]);
                           ("type", JStr "wikibase-entityid")])])])
  = Ok (Some "q6581097").
Proof. reflexivity. Qed.

Example entry_without_value :
  entry_id (JObj [("mainsnak", JObj [("snaktype", JStr "novalue")])]) = Ok None.
Proof. reflexivity. Qed.

Example list_str_two : list_str ["q1"; "q2"] = Some "['q1', 'q2']".
Proof. reflexivity. Qed.

Example last_segment_url :
  last_segment "http://www.wikidata.org/entity/Q42" = "Q42".
Proof. reflexivity. Qed.

Section EnrichmentMore.

Implicit Types (claims entity entry : json) (qid : string).
Implicit Types (values result : gmap string (list string)).

Lemma entry_id_lower entry id : entry_id entry = Ok (Some id) → PyStr.lower id = id.
Proof.
  unfold entry_id, get_default.
  destruct entry as [| | | | |m1]; simpl; try done.
  destruct (default (JObj []) (obj_get m1 "mainsnak")) as [| | | | |m2]; simpl; try done.
  destruct (default (JObj []) (obj_get m2 "datavalue")) as [| | | | |m3]; simpl; try done.
  destruct (default (JObj []) (obj_get m3 "value")) as [| | | | |m4]; simpl; try done.
  destruct (obj_get m4 "id") as [[| | |s| |]|]; try done.
  intros [= <-]. apply lower_idemp.
Qed.

Lemma collect_ids_lower (entries : list json) ids :
  collect_ids entries = Ok ids → Forall (fun id => PyStr.lower id = id) ids.
Proof.
  revert ids. induction entries as [|entry entries IH]; intros ids; simpl.
  - intros [= <-]. constructor.
  - destruct (entry_id entry) as [id|] eqn:Hid; simpl; [|done].
    destruct (collect_ids entries) as [ids'|]; simpl; [|done].
    intros [= <-]. specialize (IH ids' eq_refl).
    destruct id as [id|]; [|done]. constructor; [by apply (entry_id_lower entry) | done].
Qed.

Lemma property_values_lower claims pid ids :
  property_values claims pid = Ok ids → Forall (fun id => PyStr.lower id = id) ids.
Proof.
  unfold property_values.
  destruct (get_default claims pid (JArr [])) as [entries|]; simpl; [|done].
  destruct (iterate entries) as [items|]; simpl; [|done].
  apply collect_ids_lower.
Qed.

(** The outer loop adds a list for each property name and keeps the lists
    in lower case. *)
Lemma fill_properties_Ok claims (properties : list (string * string)) result values :
  fill_properties claims properties result = Ok values →
  (∀ field, is_Some (values !! field)
            ↔ is_Some (result !! field) ∨ field ∈ properties.*1)
  ∧ (lower_case_values result → lower_case_values values).
Proof.
  revert result. induction properties as [|[name pid] properties IH]; intros result; simpl.
  - intros [= <-]. split; [|done]. intros field. rewrite elem_of_nil. tauto.
  - destruct (property_values claims pid) as [ids|] eqn:Hids; simpl; [|done].
    intros Hfill. apply IH in Hfill as [Hdom Hlow]. split.
    + intros field. rewrite Hdom, lookup_insert_is_Some, elem_of_cons.
      destruct (decide (name = field)) as [->|Hne]; [tauto|].
      split.
      * intros [[? | [_ ?]] | ?]; [done | tauto | tauto].
      * intros [? | [? | ?]]; [left; right; done | congruence | by right].
    + intros Hres. apply Hlow. intros field ids' id Hfield Hid.
      destruct (decide (name = field)) as [->|Hne].
      * rewrite lookup_insert_eq in Hfield. injection Hfield as <-.
        apply property_values_lower in Hids. rewrite Forall_forall in Hids.
        by apply Hids.
      * rewrite lookup_insert_ne in Hfield by done. by eapply Hres.
Qed.

Lemma extract_cultural_properties_Ok (entity : option json) qid record :
  extract_cultural_properties entity qid = Ok record →
  en_qid record = qid
  ∧ (∀ field, is_Some (en_values record !! field) ↔ field ∈ list_fields)
  ∧ lower_case_values (en_values record).
Proof.
  unfold extract_cultural_properties.
  destruct (match entity with
            | Some e => if truthy e then get_default e "claims" (JObj []) else Ok (JObj [])
            | None => Ok (JObj [])
            end) as [claims|]; cbn [and_then]; [|done].
  destruct (fill_properties claims WIKIDATA_PROPERTIES ∅) as [values|] eqn:Hfill;
    cbn [and_then]; [|done].
  intros [= <-]. cbn [en_qid en_values].
  apply fill_properties_Ok in Hfill as [Hdom Hlow].
  split_and!; [done | |].
  - intros field. rewrite Hdom, lookup_empty.
    change (WIKIDATA_PROPERTIES.*1) with list_fields.
    split; [intros [[? [=]] | ?]; done | by right].
  - apply Hlow. intros field ids id Hfield. by rewrite lookup_empty in Hfield.
Qed.

(** The record of an entity that was not retrieved, or is empty. *)
Lemma extract_without_entity (entity : option json) qid :
  entity = None ∨ (∃ e, entity = Some e ∧ truthy e = false) →
  extract_cultural_properties entity qid
  = Ok {| en_qid := qid;
          en_values := list_to_map (map (fun field => (field, [])) list_fields) |}.
Proof.
  intros [-> | (e & -> & He)]; unfold extract_cultural_properties;
    [|rewrite He]; vm_compute; reflexivity.
Qed.

Lemma append_empty_r (s : string) : s +:+ "" = s.
Proof.
  induction s as [|c s IH]; [done|].
  change (String c (s +:+ "") = String c s). by rewrite IH.
Qed.

Lemma append_snoc (a : string) c (b : string) :
  (a +:+ String c "") +:+ b = a +:+ String c b.
Proof.
  induction a as [|c' a IH]; [done|].
  change (String c' ((a +:+ String c "") +:+ b) = String c' (a +:+ String c b)).
  by rewrite IH.
Qed.

Lemma plain_char_scanned c :
  plain_char c = true →
  Ascii.eqb c Literal.quote1 = false
  ∧ (Ascii.eqb c Literal.backslash || Literal.is_control c) = false.
Proof. destruct c as [[] [] [] [] [] [] [] []]; done. Qed.

(** Scanning a plain string inside single quotes. *)
Lemma scan_plain_string s cur acc rest :
  plain s = true →
  Literal.scan (Literal.Str Literal.quote1 cur acc) (s +:+ String Literal.quote1 rest)
  = Literal.scan (Literal.Sep ((cur +:+ s) :: acc)) rest.
Proof.
  revert cur. induction s as [|c s IH]; intros cur.
  - intros _. rewrite append_empty_r. reflexivity.
  - cbn [plain]. intros [Hc Hs]%andb_true_iff.
    destruct (plain_char_scanned c Hc) as [Hq Hb].
    change (String c s +:+ String Literal.quote1 rest)
      with (String c (s +:+ String Literal.quote1 rest)).
    cbn [Literal.scan]. rewrite Hq, Hb.
    rewrite (IH _ Hs). by rewrite append_snoc.
Qed.

Lemma append_assoc (a b c : string) : (a +:+ b) +:+ c = a +:+ (b +:+ c).
Proof.
  induction a as [|c' a IH]; [done|].
  change (String c' ((a +:+ b) +:+ c) = String c' (a +:+ (b +:+ c))).
  by rewrite IH.
Qed.

Lemma scan_item_quote acc s :
  Literal.scan (Literal.Item acc) (String Literal.quote1 s)
  = Literal.scan (Literal.Str Literal.quote1 "" acc) s.
Proof. reflexivity. Qed.

Lemma scan_sep_comma acc s :
  Literal.scan (Literal.Sep acc) (String Literal.comma (String " " s))
  = Literal.scan (Literal.Item acc) s.
Proof. reflexivity. Qed.

(** Scanning the text of one plain string. *)
Lemma scan_repr id r acc rest :
  str_repr id = Some r →
  Literal.scan (Literal.Item acc) (r +:+ rest)
  = Literal.scan (Literal.Sep (id :: acc)) rest.
Proof.
  unfold str_repr. destruct (plain id) eqn:Hid; [|done]. intros [= <-].
  rewrite !append_assoc.
  change ("'" +:+ id +:+ "'" +:+ rest)
    with (String Literal.quote1 (id +:+ String Literal.quote1 rest)).
  by rewrite scan_item_quote, (scan_plain_string id "" acc rest Hid).
Qed.

Lemma scan_items (ids : list string) body acc :
  join_reprs ids = Some body →
  Literal.scan (Literal.Item acc) (body +:+ "]") = Done (reverse acc ++ ids)%list.
Proof.
  revert body acc. induction ids as [|id ids IH]; intros body acc.
  - intros [= <-]. change (Done (reverse acc) = Done (reverse acc ++ [])%list).
    by rewrite app_nil_r.
  - cbn [join_reprs]. destruct ids as [|id' ids].
    + intros Hr. rewrite (scan_repr id body acc "]" Hr).
      change (Done (reverse (id :: acc)) = Done (reverse acc ++ [id])%list).
      by rewrite reverse_cons.
    + destruct (str_repr id) as [r|] eqn:Hr; [|done].
      destruct (join_reprs (id' :: ids)) as [rs|] eqn:Hrs; [|done].
      intros [= <-]. rewrite append_assoc, (scan_repr id r acc _ Hr).
      change ((", " +:+ rs) +:+ "]")
        with (String Literal.comma (String " " (rs +:+ "]"))).
      rewrite scan_sep_comma, (IH rs (id :: acc) eq_refl).
      by rewrite reverse_cons, <- app_assoc.
Qed.

(** The rule runner reads back the list that was written. *)
Lemma literal_eval_list_str ids s :
  list_str ids = Some s → Literal.literal_eval s = Done ids.
Proof.
  unfold list_str. destruct (join_reprs ids) as [body|] eqn:Hbody; [|done].
  intros [= <-]. unfold Literal.literal_eval.
  change (Literal.scan Literal.Start ("[" +:+ body +:+ "]"))
    with (Literal.scan (Literal.Item []) (body +:+ "]")).
  by rewrite (scan_items ids body [] Hbody).
Qed.

End EnrichmentMore.

(** X23.  A record that [extract_cultural_properties] returns carries the
    identifier it was given, holds a list for exactly the six columns that
    the rule runner evaluates, and has all its identifiers in lower
    case. *)
Theorem enriched_record_shape (entity : option json) (qid : string) (record : enriched) :
  extract_cultural_properties entity qid = Ok record →
  en_qid record = qid
  ∧ (∀ field, is_Some (en_values record !! field) ↔ field ∈ list_fields)
  ∧ lower_case_values (en_values record).
Proof. apply extract_cultural_properties_Ok. Qed.

(** X24.  For an entity that could not be retrieved, or is empty,
    [extract_cultural_properties] does not fail: it returns the record with
    the empty list in all six columns, which the classifier resolves to
    ["Cultural Agnostic"] with the tag ['Agnostic'] whatever the tables
    are. *)
Theorem failed_retrieval_gives_empty_record
    (entity : option json) (qid : string)
    (instance_map culture_map heritage_map : gmap string string) :
  entity = None ∨ (∃ e, entity = Some e ∧ truthy e = false) →
  ∃ record,
    extract_cultural_properties entity qid = Ok record
    ∧ en_qid record = qid
    ∧ (∀ field, field ∈ list_fields → en_values record !! field = Some [])
    ∧ rule_based_classifier (en_values record) instance_map culture_map heritage_map
      = ("Cultural Agnostic", "Agnostic").
Proof.
  intros Hentity. eexists. split; [by apply extract_without_entity|]. simpl.
  split_and!; [done | |].
  - intros field Hin.
    repeat (apply elem_of_cons in Hin as [-> | Hin]; [vm_compute; reflexivity|]).
    by apply elem_of_nil in Hin.
  - apply cascade_empty_lists; vm_compute; reflexivity.
Qed.

Lemma failed_retrieval_gives_empty_record_witness :
  ∃ record,
    extract_cultural_properties (Some (JObj [])) "Q42" = Ok record
    ∧ en_qid record = "Q42"
    ∧ (∀ field, field ∈ list_fields → en_values record !! field = Some [])
    ∧ rule_based_classifier (en_values record) ∅ ∅ sample_heritage
      = ("Cultural Agnostic", "Agnostic").
Proof.
  apply failed_retrieval_gives_empty_record. right. by exists (JObj []).
Defined.

(** X25.  Written and read back: the text that [to_csv] writes for a list
    of plain identifiers is evaluated by the rule runner to that very
    list. *)
Theorem list_text_round_trip (ids : list string) (s : string) :
  list_str ids = Some s → eval_cell (CStr s) = Done ids.
Proof. apply literal_eval_list_str. Qed.

Lemma list_text_round_trip_witness :
  eval_cell (CStr "['q1', 'q 2', 'p-31']") = Done ["q1"; "q 2"; "p-31"].
Proof. apply list_text_round_trip. reflexivity. Defined.

Section EnrichmentFlow.

Implicit Types (http : string → option json) (record : enriched).

Lemma empty_record_lookup field :
  field ∈ list_fields → en_values (empty_record "") !! field = Some [].
Proof.
  intros Hin.
  repeat (apply elem_of_cons in Hin as [-> | Hin]; [vm_compute; reflexivity|]).
  by apply elem_of_nil in Hin.
Qed.

Lemma enrich_each_Ok http (qids : list string) records :
  enrich_each http qids = Ok records →
  Forall2 (fun qid record =>
             ∃ entity, fetch_wikidata_entity http qid = Ok entity
                       ∧ extract_cultural_properties entity qid = Ok record)
          qids records.
Proof.
  revert records. induction qids as [|qid qids IH]; intros records; simpl.
  - intros [= <-]. constructor.
  - destruct (fetch_wikidata_entity http qid) as [entity|] eqn:Hfetch;
      cbn [and_then]; [|done].
    destruct (extract_cultural_properties entity qid) as [record|] eqn:Hrec;
      cbn [and_then]; [|done].
    destruct (enrich_each http qids) as [records'|]; cbn [and_then]; [|done].
    intros [= <-]. constructor; [by exists entity | by apply IH].
Qed.


Lemma segment_after_digits current ds :
  all_digits ds = true → segment_after current ds = current +:+ ds.
Proof.
  revert current. induction ds as [|d ds IH]; intros current.
  - intros _. by rewrite append_empty_r.
  - cbn [all_digits]. intros [Hd Hds]%andb_true_iff. cbn [segment_after].
    assert (Ascii.eqb d (ascii_of_nat 47) = false) as ->
      by (clear -Hd; destruct d as [[] [] [] [] [] [] [] []]; done).
    by rewrite (IH _ Hds), append_snoc.
Qed.

Lemma segment_after_slash current a b :
  segment_after current (a +:+ String "/" b) = segment_after "" b.
Proof.
  revert current. induction a as [|c a IH]; intros current; [done|].
  change (String c a +:+ String "/" b) with (String c (a +:+ String "/" b)).
  cbn [segment_after]. destruct (Ascii.eqb c (ascii_of_nat 47)); apply IH.
Qed.

Lemma extract_qid_cons_None c s :
  extract_qid (String c s) = None →
  extract_qid s = None ∧ (c = "Q"%char → digits s = "").
Proof.
  cbn [extract_qid]. change (ascii_of_nat 81) with "Q"%char.
  destruct (Ascii.eqb_spec c "Q"%char) as [->|Hc].
  - destruct (digits s); [done | done].
  - done.
Qed.

(** A prefix without a Q-number is passed over when the rest does not
    start with a digit. *)
Lemma extract_qid_skip pre c rest :
  extract_qid pre = None → is_digit c = false →
  extract_qid (pre +:+ String c rest) = extract_qid (String c rest).
Proof.
  intros Hpre Hc. induction pre as [|c' pre IH]; [done|].
  apply extract_qid_cons_None in Hpre as [Hpre Hdigits].
  change (String c' pre +:+ String c rest) with (String c' (pre +:+ String c rest)).
  cbn [extract_qid]. change (ascii_of_nat 81) with "Q"%char.
  destruct (Ascii.eqb_spec c' "Q"%char) as [->|Hne]; [|by apply IH].
  assert (digits (pre +:+ String c rest) = "") as ->; [|by apply IH].
  specialize (Hdigits eq_refl). destruct pre as [|d pre].
  - change (digits (String c rest) = ""). cbn [digits]. by rewrite Hc.
  - change (digits (String d (pre +:+ String c rest)) = "").
    cbn [digits] in *. by destruct (is_digit d).
Qed.

End EnrichmentFlow.

Lemma enriched_record_shape_witness :
  en_qid (Enriched "Q9" {[ "country_of_origin" := []; "country" := [];
                           "located_in" := []; "part_of_culture" := [];
                           "instance_of" := ["q5"]; "heritage_status" := ["q1"] ]})
  = "Q9"
  ∧ lower_case_values
      {[ "country_of_origin" := []; "country" := [];
         "located_in" := []; "part_of_culture" := [];
         "instance_of" := ["q5"]; "heritage_status" := ["q1"] ]}.
Proof.
  destruct (enriched_record_shape (Some sample_entity) "Q9"
              (Enriched "Q9" {[ "country_of_origin" := []; "country" := [];
                                "located_in" := []; "part_of_culture" := [];
                                "instance_of" := ["q5"]; "heritage_status" := ["q1"] ]}))
    as (Hq & _ & Hlow); [vm_compute; reflexivity|].
  by split.
Defined.



(** X27.  When [enrich_qids] returns, it has one record for each item, in
    order, under the last path segment of the item; and where the
    retrieval of an entity failed, the record is there all the same, with
    the empty list in all six columns. *)
Theorem enrich_qids_one_record_per_item
    (http : string → option json) (items : list string) (records : list enriched) :
  enrich_qids http items = Ok records →
  map en_qid records = map last_segment items
  ∧ ∀ i item record,
      items !! i = Some item → records !! i = Some record →
      http (entity_url (last_segment item)) = None →
      ∀ field, field ∈ list_fields → en_values record !! field = Some [].
Proof.
  unfold enrich_qids. intros Hrun. apply enrich_each_Ok in Hrun.
  assert (Forall2
            (fun q record =>
               en_qid record = q
               ∧ (http (entity_url q) = None →
                  ∀ field, field ∈ list_fields → en_values record !! field = Some []))
            (map last_segment items) records) as Hall.
  { eapply Forall2_impl; [exact Hrun|].
    intros q record (entity & Hfetch & Hextract). split.
    - by apply extract_cultural_properties_Ok in Hextract as (? & _).
    - intros Hnone field Hfield.
      unfold fetch_wikidata_entity in Hfetch. rewrite Hnone in Hfetch.
      injection Hfetch as <-.
      rewrite (extract_without_entity None q) in Hextract by (by left).
      injection Hextract as <-. by apply empty_record_lookup. }
  clear Hrun. split.
  - revert Hall. generalize (map last_segment items). intros qs Hall.
    induction Hall as [|q record qs records [Hq _] _ IH]; simpl; [done|].
    by rewrite Hq, IH.
  - intros i item record Hitem Hrec.
    assert (map last_segment items !! i = Some (last_segment item)) as Hq
      by (by rewrite lookup_map, Hitem).
    by destruct (Forall2_lookup_lr _ _ _ _ _ _ Hall Hq Hrec) as [_ ?].
Qed.

Lemma enrich_qids_one_record_per_item_witness :
  map en_qid
    [Enriched "Q9" {[ "country_of_origin" := []; "country" := [];
                      "located_in" := []; "part_of_culture" := [];
                      "instance_of" := ["q5"]; "heritage_status" := ["q1"] ]};
     empty_record "Q404"]
  = map last_segment ["http://www.wikidata.org/entity/Q9";
                      "http://www.wikidata.org/entity/Q404"].
Proof.
  apply (enrich_qids_one_record_per_item sample_http). vm_compute. reflexivity.
Defined.

(** X28.  The two ways in which the scripts read an identifier off an item
    agree on entity addresses.  For an item that is an ASCII text, ends in
    a slash and a Q-number, and has no Q-number before, the last path segment, which the
    enrichment takes, is the key that [load_raw_text] extracts: the
    Q-number. *)
Theorem item_identifiers_agree (prefix ds : string) :
  is_ascii prefix = true →
  ds ≠ "" →
  all_digits ds = true →
  extract_qid prefix = None →
  let item := prefix +:+ String "/" (String "Q" ds) in
  last_segment item = String "Q" ds
  ∧ extract_qid item = Some (last_segment item).
Proof.
  intros _ Hne Hds Hprefix item.
  assert (last_segment item = String "Q" ds) as Hlast.
  { unfold item, last_segment. rewrite segment_after_slash.
    change (segment_after "" (String "Q" ds)) with (segment_after "Q" ds).
    by rewrite (segment_after_digits "Q" ds Hds). }
  split; [done|]. rewrite Hlast. unfold item.
  rewrite (extract_qid_skip prefix "/" (String "Q" ds) Hprefix eq_refl).
  change (extract_qid (String "/" (String "Q" ds)))
    with (extract_qid (String "Q" ds)).
  by apply extract_qid_Q.
Qed.

Lemma item_identifiers_agree_witness :
  last_segment "http://www.wikidata.org/entity/Q42" = "Q42"
  ∧ extract_qid "http://www.wikidata.org/entity/Q42"
    = Some (last_segment "http://www.wikidata.org/entity/Q42").
Proof.
  apply (item_identifiers_agree "http://www.wikidata.org/entity" "42");
    [reflexivity | discriminate | reflexivity | reflexivity].
Defined.

(** * Analysis plots *)

Lemma bar_labels_elem_of (rbc_counts hyb_counts : gmap string nat) label :
  label ∈ bar_labels rbc_counts hyb_counts
  ↔ is_Some (rbc_counts !! label) ∨ is_Some (hyb_counts !! label).
Proof.
  unfold bar_labels. rewrite merge_sort_Permutation, elem_of_elements,
    elem_of_union, !elem_of_dom. done.
Qed.

Lemma bar_labels_NoDup (rbc_counts hyb_counts : gmap string nat) :
  NoDup (bar_labels rbc_counts hyb_counts).
Proof.
  unfold bar_labels. rewrite merge_sort_Permutation. apply NoDup_elements.
Qed.

(** X29. The two bar series of the distribution plot share one label
    axis: the labels of both count tables, each once, in increasing
    order.  At every position each series holds that label's count in
    its own table, and 0 when the table does not have the label; so no
    label of either table is dropped and the bars of the two series
    line up. *)
Theorem bars_share_sorted_label_axis (rbc_counts hyb_counts : gmap string nat) :
  let '(labels, rbc_vals, hyb_vals) :=
    plot_label_distribution rbc_counts hyb_counts in
  StronglySorted String.le labels
  ∧ NoDup labels
  ∧ (∀ label, label ∈ labels
       ↔ is_Some (rbc_counts !! label) ∨ is_Some (hyb_counts !! label))
  ∧ length rbc_vals = length labels
  ∧ length hyb_vals = length labels
  ∧ (∀ label n, rbc_counts !! label = Some n →
       ∃ i, labels !! i = Some label ∧ rbc_vals !! i = Some n)
  ∧ (∀ label n, hyb_counts !! label = Some n →
       ∃ i, labels !! i = Some label ∧ hyb_vals !! i = Some n)
  ∧ (∀ i label, labels !! i = Some label → rbc_counts !! label = None →
       rbc_vals !! i = Some 0)
  ∧ (∀ i label, labels !! i = Some label → hyb_counts !! label = None →
       hyb_vals !! i = Some 0).
Proof.
  unfold plot_label_distribution.
  set (labels := bar_labels rbc_counts hyb_counts).
  assert (∀ (counts : gmap string nat) i label,
    labels !! i = Some label →
    bar_values counts labels !! i = Some (default 0 (counts !! label)))
    as Hat.
  { intros counts i label Hi. unfold bar_values.
    change (map ?f labels) with (f <$> labels).
    by rewrite list_lookup_fmap, Hi. }
  assert (∀ (counts : gmap string nat) label n,
    label ∈ labels → counts !! label = Some n →
    ∃ i, labels !! i = Some label ∧ bar_values counts labels !! i = Some n)
    as Hin.
  { intros counts label n [i Hi]%list_elem_of_lookup Hn.
    exists i. split; [done|]. by rewrite (Hat counts i label Hi), Hn. }
  repeat split.
  - apply StronglySorted_merge_sort; apply _.
  - apply bar_labels_NoDup.
  - by apply bar_labels_elem_of.
  - by apply bar_labels_elem_of.
  - unfold bar_values. by rewrite length_map.
  - unfold bar_values. by rewrite length_map.
  - intros label n Hn. apply Hin; [|done].
    apply bar_labels_elem_of. left. by exists n.
  - intros label n Hn. apply Hin; [|done].
    apply bar_labels_elem_of. right. by exists n.
  - intros i label Hi Hnone. by rewrite (Hat rbc_counts i label Hi), Hnone.
  - intros i label Hi Hnone. by rewrite (Hat hyb_counts i label Hi), Hnone.
Qed.
